(** * Media index operations of the DA Live admin server

    A shallow embedding of [src/operations/media.js]: the key normalizer
    ([getGroupingKey]), the index builder ([buildMediaStructures]), the
    per-site cache ([mediaCache]) and the query operations built on them
    ([getMediaIndex], [getMediaStats], [findMediaUsage],
    [refreshMediaCache]).

    Conventions of the embedding.
    - A JavaScript string is a [string]; a field that may be absent
      ([undefined]) is an [option string].  Truthiness of such a value is
      [truthy]: present and not the empty string.
    - [String.prototype.toLowerCase] is modelled on the ASCII letters.
    - The [typeCount] object of the statistics is a plain object used as
      a dictionary: its own properties are a [gmap], and a read of a name
      it does not own falls through to the members inherited from
      [Object.prototype] ([typeCountStep]).
    - The two [Map]s filled by the index builder are iterated by the code
      (insertion order is observable), so they are association lists kept
      in insertion order ([JSMap]).  The module-level [mediaCache] is only
      read and written by key: it is a [gmap].
    - [async] functions are run to completion one after the other; the
      remote endpoint ([daAdminRequest]), the URL formatter ([formatURL])
      and the clock ([Date.now]) live in [src/common/utils.js] and the
      runtime, and are taken as an environment [Env]. *)

From Stdlib Require Import String Ascii List ZArith Bool Lia.
From stdpp Require Import base option list strings gmap fin_maps.

Import ListNotations.
Local Open Scope string_scope.
Local Open Scope list_scope.

(** ** JavaScript string primitives *)

Module JS.

(** [!!v] for a value that is a string or absent. *)
Definition truthy (v : option string) : bool :=
  match v with
  | Some (String _ _) => true
  | _ => false
  end.

Definition lower_ascii (c : ascii) : ascii :=
  let n := nat_of_ascii c in
  if Nat.leb 65 n && Nat.leb n 90 then ascii_of_nat (n + 32) else c.

(** [v === s] for a value that is a string or absent. *)
Definition strictEq (v : option string) (s : string) : bool :=
  match v with
  | Some x => String.eqb x s
  | None => false
  end.

(** [s.toLowerCase()] *)
Fixpoint toLowerCase (s : string) : string :=
  match s with
  | EmptyString => EmptyString
  | String c s' => String (lower_ascii c) (toLowerCase s')
  end.

(** [s.split(sep)] for a separator of one character. *)
Fixpoint split (sep : ascii) (s : string) : list string :=
  match s with
  | EmptyString => [EmptyString]
  | String c s' =>
      if Ascii.eqb c sep then EmptyString :: split sep s'
      else match split sep s' with
           | h :: t => String c h :: t
           | [] => [String c EmptyString]
           end
  end.

(** [s.includes(sub)] *)
Fixpoint includes (s sub : string) : bool :=
  String.prefix sub s ||
  match s with
  | EmptyString => false
  | String _ s' => includes s' sub
  end.

(** Does the character occur in the string? *)
Fixpoint mem_char (c : ascii) (s : string) : bool :=
  match s with
  | EmptyString => false
  | String d s' => Ascii.eqb d c || mem_char c s'
  end.

End JS.

(** ** Key normalizer *)

(** [function getGroupingKey(url)]:
    [if (!url) return ''; return url.split('?')[0].toLowerCase();] *)
Definition getGroupingKey (url : option string) : string :=
  match url with
  | Some u =>
      if JS.truthy url
      then JS.toLowerCase (hd EmptyString (JS.split "?"%char u))
      else EmptyString
  | None => EmptyString
  end.

(** ** Data model *)

(** A row of the remote document.  The fields read by the code are kept
    apart; any other attribute travels in [extra]. *)
Record RawRecord := {
  url : option string;
  doc : option string;
  alt : option string;
  type : option string;
  name : option string;
  firstUsedAt : option Z;
  lastUsedAt : option Z;
  hash : option string;
  extra : list (string * string)
}.

(** [{ ...item, usageCount: n }]: the spread copy of a raw record together
    with the counter that the object literal sets after the spread. *)
Record CatalogueEntry := {
  item : RawRecord;
  usageCount : nat
}.

(** The object pushed on a usage-index sequence. *)
Record UsageDetail := {
  usage_doc : option string;
  usage_alt : option string;
  usage_type : option string;
  usage_firstUsedAt : option Z;
  usage_lastUsedAt : option Z;
  usage_hash : option string
}.

(** ** A JavaScript [Map] with string keys, in insertion order *)

Module JSMap.

Definition t (V : Type) : Type := list (string * V).

Definition empty {V : Type} : t V := [].

Fixpoint get {V : Type} (k : string) (m : t V) : option V :=
  match m with
  | [] => None
  | (k', v) :: m' => if String.eqb k k' then Some v else get k m'
  end.

Definition has {V : Type} (k : string) (m : t V) : bool :=
  match get k m with
  | Some _ => true
  | None => false
  end.

(** [m.set(k, v)]: an existing key keeps its place, a new one goes last. *)
Fixpoint set {V : Type} (k : string) (v : V) (m : t V) : t V :=
  match m with
  | [] => [(k, v)]
  | (k', v') :: m' =>
      if String.eqb k k' then (k, v) :: m' else (k', v') :: set k v m'
  end.

Definition keys {V : Type} (m : t V) : list string := map fst m.

Definition values {V : Type} (m : t V) : list V := map snd m.

End JSMap.

(** ** A JavaScript [Set] of strings, in insertion order *)

Module JSSet.

Definition mem (x : string) (s : list string) : bool :=
  existsb (String.eqb x) s.

Definition add (x : string) (s : list string) : list string :=
  if mem x s then s else s ++ [x].

(** [new Set(l)], then spread back into an array. *)
Definition of_list (l : list string) : list string :=
  fold_left (fun s x => add x s) l [].

End JSSet.

(** ** Index builder *)

Record Structures := {
  uniqueItems : list CatalogueEntry;
  usageIndex : JSMap.t (list UsageDetail);
  rawData : list RawRecord
}.

Definition usageDetail (it : RawRecord) : UsageDetail :=
  {| usage_doc := doc it;
     usage_alt := alt it;
     usage_type := type it;
     usage_firstUsedAt := firstUsedAt it;
     usage_lastUsedAt := lastUsedAt it;
     usage_hash := hash it |}.

(** The body of [rawData.forEach(item => ...)] in [buildMediaStructures],
    on the pair ([uniqueItemsMap], [usageIndex]).  The two [get]s that
    follow a [set] of the same key cannot miss ([build_step_get]); the
    [None] branches stand for the [TypeError] the code would raise. *)
Definition build_step
    (acc : JSMap.t CatalogueEntry * JSMap.t (list UsageDetail))
    (it : RawRecord) : JSMap.t CatalogueEntry * JSMap.t (list UsageDetail) :=
  let '(uniqueItemsMap, usageIdx) := acc in
  if negb (JS.truthy (url it)) then acc
  else
    let groupingKey := getGroupingKey (url it) in
    let uniqueItemsMap1 :=
      if negb (JSMap.has groupingKey uniqueItemsMap)
      then JSMap.set groupingKey {| item := it; usageCount := 0 |} uniqueItemsMap
      else uniqueItemsMap in
    let uniqueItemsMap2 :=
      match JSMap.get groupingKey uniqueItemsMap1 with
      | Some e =>
          JSMap.set groupingKey
            {| item := item e; usageCount := usageCount e + 1 |} uniqueItemsMap1
      | None => uniqueItemsMap1
      end in
    let usageIdx1 :=
      if negb (JSMap.has groupingKey usageIdx)
      then JSMap.set groupingKey [] usageIdx
      else usageIdx in
    let usageIdx2 :=
      match JSMap.get groupingKey usageIdx1 with
      | Some us => JSMap.set groupingKey (us ++ [usageDetail it]) usageIdx1
      | None => usageIdx1
      end in
    (uniqueItemsMap2, usageIdx2).

Definition build_maps (raw : list RawRecord)
  : JSMap.t CatalogueEntry * JSMap.t (list UsageDetail) :=
  fold_left build_step raw (JSMap.empty, JSMap.empty).

(** [function buildMediaStructures(rawData)] *)
Definition buildMediaStructures (raw : list RawRecord) : Structures :=
  let '(uniqueItemsMap, usageIdx) := build_maps raw in
  {| uniqueItems := JSMap.values uniqueItemsMap;
     usageIndex := usageIdx;
     rawData := raw |}.

(** ** Environment: remote endpoint, URL formatter, clock *)

(** What [await daAdminRequest(url)] resolves to, as far as
    [data.data || data || []] tells the shapes apart: an object with a
    [data] array, a bare array, or a falsy value other than [null] and
    [undefined]. *)
Inductive Payload :=
| Sheet (data : list RawRecord)
| Rows (rows : list RawRecord)
| Falsy.

(** The promise of [daAdminRequest] either rejects (with the text that
    [error.message || error.toString()] extracts) or resolves. *)
Inductive Response :=
| Rejects (message : string)
| Resolves (body : Payload).

Record Env := {
  formatURL : string -> string -> string -> string -> string -> string;
  daAdminRequest : string -> Response;
  now : Z
}.

Definition MEDIA_INDEX_PATH : string := "/.da/mediaindex/media".

(** [path.replace(/^\//, '')] *)
Definition stripLeadingSlash (p : string) : string :=
  match p with
  | String c p' => if Ascii.eqb c "/"%char then p' else p
  | EmptyString => p
  end.

(** [path || ''] *)
Definition orEmpty (path : option string) : string :=
  match path with
  | Some p => if JS.truthy path then p else EmptyString
  | None => EmptyString
  end.

Definition buildMediaPath (path : option string) : string :=
  match path with
  | Some p =>
      if JS.truthy path
      then "/" +:+ stripLeadingSlash p +:+ MEDIA_INDEX_PATH
      else MEDIA_INDEX_PATH
  | None => MEDIA_INDEX_PATH
  end.

Definition buildMediaUrl (env : Env) (org repo : string) (path : option string)
  : string :=
  formatURL env "source" org repo (buildMediaPath path) "json".

Record Debug := {
  debug_org : string;
  debug_repo : string;
  debug_path : option string;
  debug_url : string;
  debug_error : string
}.

Record ErrorResponse := {
  error : string;
  initUrl : string;
  debug : Debug
}.

Definition buildErrorResponse (env : Env) (org repo : string)
    (path : option string) (message : string) : ErrorResponse :=
  let displayPath :=
    match path with
    | Some p => if JS.truthy path then "/" +:+ stripLeadingSlash p else EmptyString
    | None => EmptyString
    end in
  {| error := "Media index not found";
     initUrl :=
       "https://main--da-live--adobe.aem.live/apps/media-library?nx=media#"
         +:+ org +:+ "/" +:+ repo +:+ displayPath;
     debug := {| debug_org := org;
                 debug_repo := repo;
                 debug_path := path;
                 debug_url := buildMediaUrl env org repo path;
                 debug_error := message |} |}.

(** ** Site cache and [getMediaIndex] *)

(** [{ ...structures, fetchedAt }] *)
Record CacheEntry := {
  structures : Structures;
  fetchedAt : Z
}.

(** [`${org}/${repo}/${path || ''}`] *)
Definition cacheKey (org repo : string) (path : option string) : string :=
  org +:+ "/" +:+ repo +:+ "/" +:+ orEmpty path.

Inductive IndexResult :=
| IndexData (data : list CatalogueEntry) (total : nat) (fetched : Z)
            (cached : bool)
| IndexError (e : ErrorResponse).

(** [data.data || data || []] *)
Definition mediaDataOf (body : Payload) : list RawRecord :=
  match body with
  | Sheet d => d
  | Rows r => r
  | Falsy => []
  end.

(** [async function getMediaIndex(org, repo, path)], threading the
    module-level [mediaCache]. *)
Definition getMediaIndex (env : Env) (org repo : string) (path : option string)
    (mediaCache : gmap string CacheEntry)
  : IndexResult * gmap string CacheEntry :=
  let key := cacheKey org repo path in
  match mediaCache !! key with
  | Some cached =>
      (IndexData (uniqueItems (structures cached))
                 (length (uniqueItems (structures cached)))
                 (fetchedAt cached) true,
       mediaCache)
  | None =>
      match daAdminRequest env (buildMediaUrl env org repo path) with
      | Resolves body =>
          let mediaData := mediaDataOf body in
          let strs := buildMediaStructures mediaData in
          let fetched := now env in
          (IndexData (uniqueItems strs) (length (uniqueItems strs)) fetched false,
           <[key := {| structures := strs; fetchedAt := fetched |}]> mediaCache)
      | Rejects message =>
          (IndexError (buildErrorResponse env org repo path message), mediaCache)
      end
  end.

(** [async function refreshMediaCache(org, repo, path)] *)
Definition refreshMediaCache (env : Env) (org repo : string)
    (path : option string) (mediaCache : gmap string CacheEntry)
  : IndexResult * gmap string CacheEntry :=
  getMediaIndex env org repo path (delete (cacheKey org repo path) mediaCache).

(** ** Statistics *)

Record AltStatus := {
  filled : nat;
  decorative : nat;
  notFilled : nat
}.

(** A value held by the [typeCount] object: a count, or the text that
    [+ 1] makes of a member that is not a number. *)
Inductive JSVal :=
| Num (n : nat)
| Str (s : string).

(** The methods every plain object inherits from [Object.prototype], each
    with the name of the function it holds. *)
Definition objectPrototypeMethods : list (string * string) :=
  [ ("constructor", "Object");
    ("__defineGetter__", "__defineGetter__");
    ("__defineSetter__", "__defineSetter__");
    ("hasOwnProperty", "hasOwnProperty");
    ("__lookupGetter__", "__lookupGetter__");
    ("__lookupSetter__", "__lookupSetter__");
    ("isPrototypeOf", "isPrototypeOf");
    ("propertyIsEnumerable", "propertyIsEnumerable");
    ("toString", "toString");
    ("valueOf", "valueOf");
    ("toLocaleString", "toLocaleString") ].

(** [String(f)] for a built-in function [f], as Node prints it. *)
Definition nativeText (fname : string) : string :=
  "function " +:+ fname +:+ "() { [native code] }".

(** The text of the method that a plain object inherits under the name
    [k], if it inherits one. *)
Definition inheritedMethod (k : string) : option string :=
  nativeText <$> JSMap.get k objectPrototypeMethods.

(** [(v || 0) + 1]: a number is incremented (a zero, being falsy, gives
    1 all the same), the empty text is falsy, any other text has ["1"]
    appended. *)
Definition bump (v : JSVal) : JSVal :=
  match v with
  | Num n => Num (n + 1)
  | Str EmptyString => Num (0 + 1)
  | Str s => Str (s +:+ "1")
  end.

(** [typeCount[type] = (typeCount[type] || 0) + 1] on the plain object
    [typeCount].  Under the name [__proto__] the read gives the prototype
    object and the write of a text is dropped by the inherited setter, so
    no property is made.  Under any other name the read gives the own
    property when there is one, else the inherited method when there is
    one, else [undefined]; the write makes or updates an own property. *)
Definition typeCountStep (typeCount : gmap string JSVal) (ty : string)
  : gmap string JSVal :=
  if String.eqb ty "__proto__" then typeCount
  else
    match typeCount !! ty with
    | Some v => <[ty := bump v]> typeCount
    | None =>
        match inheritedMethod ty with
        | Some text => <[ty := bump (Str text)]> typeCount
        | None => <[ty := Num (0 + 1)]> typeCount
        end
    end.

Record Stats := {
  stats_uniqueItems : nat;
  totalReferences : nat;
  byType : gmap string JSVal;
  unused : nat;
  altText : AltStatus
}.

Inductive StatsResult :=
| StatsData (s : Stats)
| StatsError (e : ErrorResponse).

(** [item.type || 'unknown'] *)
Definition typeOrUnknown (it : RawRecord) : string :=
  match type it with
  | Some ty => if JS.truthy (type it) then ty else "unknown"
  | None => "unknown"
  end.

(** The body of [rawData.forEach(item => ...)] in [getMediaStats], on the
    triple ([typeCount], [unusedCount], [altStatus]). *)
Definition stats_step (acc : gmap string JSVal * nat * AltStatus)
    (it : RawRecord) : gmap string JSVal * nat * AltStatus :=
  let '(typeCount, unusedCount, altStatus) := acc in
  let ty := typeOrUnknown it in
  let typeCount' := typeCountStep typeCount ty in
  let unusedCount' :=
    if negb (JS.truthy (doc it)) then unusedCount + 1 else unusedCount in
  let altStatus' :=
    if JS.strictEq (alt it) "null"
    then {| filled := filled altStatus;
            decorative := decorative altStatus;
            notFilled := notFilled altStatus + 1 |}
    else if negb (JS.truthy (alt it))
    then {| filled := filled altStatus;
            decorative := decorative altStatus + 1;
            notFilled := notFilled altStatus |}
    else {| filled := filled altStatus + 1;
            decorative := decorative altStatus;
            notFilled := notFilled altStatus |} in
  (typeCount', unusedCount', altStatus').

Definition stats_loop (raw : list RawRecord)
  : gmap string JSVal * nat * AltStatus :=
  fold_left stats_step raw
    (∅, 0, {| filled := 0; decorative := 0; notFilled := 0 |}).

(** [async function getMediaStats(org, repo, path)].  When the cache has
    no entry after a successful [getMediaIndex] the code falls back on
    [index.data], whose objects carry the raw attributes. *)
Definition getMediaStats (env : Env) (org repo : string) (path : option string)
    (mediaCache : gmap string CacheEntry)
  : StatsResult * gmap string CacheEntry :=
  match getMediaIndex env org repo path mediaCache with
  | (IndexError e, mediaCache') => (StatsError e, mediaCache')
  | (IndexData data _ _ _, mediaCache') =>
      let raw :=
        match mediaCache' !! cacheKey org repo path with
        | Some cached => rawData (structures cached)
        | None => map item data
        end in
      let '(typeCount, unusedCount, altStatus) := stats_loop raw in
      (StatsData {| stats_uniqueItems := length data;
                    totalReferences := length raw;
                    byType := typeCount;
                    unused := unusedCount;
                    altText := altStatus |},
       mediaCache')
  end.

Definition numberOf (v : JSVal) : nat :=
  match v with
  | Num n => n
  | Str _ => 0
  end.

(** The numbers among [Object.values(byType)], summed up. *)
Definition sumValues (m : gmap string JSVal) : nat :=
  map_fold (fun _ v acc => numberOf v + acc) 0 m.

(** Every value of the object is a number. *)
Definition allNumbers (m : gmap string JSVal) : Prop :=
  forall k v, m !! k = Some v -> exists n, v = Num n.

(** [altText.filled + altText.decorative + altText.notFilled] *)
Definition altTotal (a : AltStatus) : nat :=
  filled a + decorative a + notFilled a.

(** ** Usage lookup *)

(** The [mediaItem] field: [null] in the not-found object, otherwise what
    [Array.prototype.find] returns. *)
Inductive MediaItem :=
| ItemNull
| ItemUndefined
| ItemOf (e : CatalogueEntry).

Record Usage := {
  mediaItem : MediaItem;
  usage_usageCount : nat;
  documents : list string;
  allUsages : list UsageDetail
}.

Inductive UsageResult :=
| UsageData (u : Usage)
| UsageNotLoaded (message : string)
| UsageError (e : ErrorResponse).

Definition notFound : Usage :=
  {| mediaItem := ItemNull;
     usage_usageCount := 0;
     documents := [];
     allUsages := [] |}.

(** The [let groupingKey = null; if (mediaUrl) ... else if (mediaName) ...]
    block; [None] is [null]. *)
Definition resolveKey (usageIdx : JSMap.t (list UsageDetail))
    (mediaUrl mediaName : option string) : option string :=
  if JS.truthy mediaUrl then Some (getGroupingKey mediaUrl)
  else
    match mediaName with
    | Some n =>
        if JS.truthy mediaName
        then
          let nameLower := JS.toLowerCase n in
          find (fun key => JS.includes key nameLower) (JSMap.keys usageIdx)
        else None
    | None => None
    end.

(** [[...new Set(usages.map(item => item.doc).filter(doc => doc))]] *)
Definition docsOf (usages : list UsageDetail) : list string :=
  JSSet.of_list
    (map (default EmptyString) (List.filter JS.truthy (map usage_doc usages))).

(** [cached.uniqueItems.find(item => getGroupingKey(item.url) === key)] *)
Definition findItem (items : list CatalogueEntry) (key : string) : MediaItem :=
  match find (fun e => String.eqb (getGroupingKey (url (item e))) key) items with
  | Some e => ItemOf e
  | None => ItemUndefined
  end.

(** The part of [findMediaUsage] that runs on the cache entry. *)
Definition lookupUsage (cached : CacheEntry)
    (mediaUrl mediaName : option string) : Usage :=
  let groupingKey := resolveKey (usageIndex (structures cached)) mediaUrl mediaName in
  match groupingKey with
  | Some key =>
      if negb (JS.truthy groupingKey) then notFound
      else
        match JSMap.get key (usageIndex (structures cached)) with
        | None => notFound
        | Some usages =>
            {| mediaItem := findItem (uniqueItems (structures cached)) key;
               usage_usageCount := length usages;
               documents := docsOf usages;
               allUsages := usages |}
        end
  | None => notFound
  end.

(** [async function findMediaUsage(org, repo, path, mediaUrl, mediaName)] *)
Definition findMediaUsage (env : Env) (org repo : string)
    (path mediaUrl mediaName : option string)
    (mediaCache : gmap string CacheEntry)
  : UsageResult * gmap string CacheEntry :=
  match getMediaIndex env org repo path mediaCache with
  | (IndexError e, mediaCache') => (UsageError e, mediaCache')
  | (IndexData _ _ _ _, mediaCache') =>
      match mediaCache' !! cacheKey org repo path with
      | None => (UsageNotLoaded "Media data not loaded", mediaCache')
      | Some cached => (UsageData (lookupUsage cached mediaUrl mediaName), mediaCache')
      end
  end.

(** ** Reference definitions used in the statements *)

(** A record takes part in the index under key [k]: its location
    identifier is present and non-empty, and normalizes to [k]. *)
Definition carries (k : string) (r : RawRecord) : bool :=
  JS.truthy (url r) && String.eqb (getGroupingKey (url r)) k.

Definition hasUrl (r : RawRecord) : bool := JS.truthy (url r).

(** The canonical keys met by the builder, one per indexed record. *)
Definition keysOf (raw : list RawRecord) : list string :=
  map (fun r => getGroupingKey (url r)) (List.filter hasUrl raw).

(** The distinct elements of a list, each at its first occurrence. *)
Fixpoint firstOccurrences (l : list string) : list string :=
  match l with
  | [] => []
  | x :: l' =>
      x :: List.filter (fun y => negb (String.eqb y x)) (firstOccurrences l')
  end.

(** The [doc] values of a sequence of usages that are present and not
    empty, in order. *)
Fixpoint nonEmptyDocs (usages : list UsageDetail) : list string :=
  match usages with
  | [] => []
  | u :: us =>
      match usage_doc u with
      | Some (String c d) => String c d :: nonEmptyDocs us
      | _ => nonEmptyDocs us
      end
  end.

(** ** Sample data *)

(** The address scheme given in the server instructions of [index.js]:
    [https://admin.da.live/source/<org>/<repo>/<path>.<extension>]. *)
Definition sampleFormatURL (api org repo path ext : string) : string :=
  "https://admin.da.live/" +:+ api +:+ "/" +:+ org +:+ "/" +:+ repo
    +:+ path +:+ "." +:+ ext.

Definition mkRecord (u d a : option string) : RawRecord :=
  {| url := u; doc := d; alt := a; type := Some "img > png"; name := None;
     firstUsedAt := Some 1700000000000%Z; lastUsedAt := Some 1700000000000%Z;
     hash := Some "h"; extra := [] |}.

(** The scenario of the specification: two references to [a.png], one
    unused [b.png]. *)
Definition sampleRaw : list RawRecord :=
  [ mkRecord (Some "a.png?x=1") (Some "p1") (Some "");
    mkRecord (Some "a.png") (Some "p2") (Some "cat");
    mkRecord (Some "b.png") (Some "") (Some "null") ].

Definition sampleEnv : Env :=
  {| formatURL := sampleFormatURL;
     daAdminRequest := fun _ => Resolves (Sheet sampleRaw);
     now := 1700000000000%Z |}.

(** A cache that already holds the built index of one site. *)
Definition sampleCache : gmap string CacheEntry :=
  <[cacheKey "acme" "site" None :=
      {| structures := buildMediaStructures sampleRaw;
         fetchedAt := 1690000000000%Z |}]> ∅.

(** A remote without the media index document. *)
Definition offlineEnv : Env :=
  {| formatURL := sampleFormatURL;
     daAdminRequest := fun _ => Rejects "404 Not Found";
     now := 1700000000000%Z |}.

(** Rows whose type names are members of [Object.prototype]. *)
Definition mkTyped (ty : option string) : RawRecord :=
  {| url := Some "a.png"; doc := Some "p1"; alt := Some "cat"; type := ty;
     name := None; firstUsedAt := None; lastUsedAt := None; hash := None;
     extra := [] |}.

Definition clashRows : list RawRecord :=
  [ mkTyped (Some "constructor"); mkTyped (Some "constructor");
    mkTyped (Some "__proto__"); mkTyped None ].

Definition clashEnv : Env :=
  {| formatURL := sampleFormatURL;
     daAdminRequest := fun _ => Resolves (Rows clashRows);
     now := 1700000000000%Z |}.

(** A remote whose only row has no location identifier. *)
Definition blankRows : list RawRecord :=
  [ mkRecord (Some "") (Some "p1") None ].

Definition blankEnv : Env :=
  {| formatURL := sampleFormatURL;
     daAdminRequest := fun _ => Resolves (Rows blankRows);
     now := 1700000000000%Z |}.

(** ** Search and status check *)

(** The [filters] object handed to [searchMedia]; every criterion is
    optional. *)
Record Filters := {
  filter_type : option string;
  filter_doc : option string;
  filter_name : option string;
  filter_alt : option string;
  unusedOnly : option bool;
  missingAlt : option bool
}.

(** Truthiness of a boolean that may be absent. *)
Definition flag (b : option bool) : bool := default false b.

(** The callback of [index.data.filter(item => ...)] in [searchMedia]:
    a chain of [if (...) return false;] closed by [return true]. *)
Definition searchCallback (filters : Filters) (e : CatalogueEntry) : bool :=
  let it := item e in
  let nameLower := JS.toLowerCase <$> filter_name filters in
  let altLower := JS.toLowerCase <$> filter_alt filters in
  if JS.truthy (filter_type filters)
     && (negb (JS.truthy (type it))
         || negb (JS.includes (default EmptyString (type it))
                    (default EmptyString (filter_type filters))))
  then false
  else if JS.truthy (filter_doc filters)
          && negb (JS.strictEq (doc it) (default EmptyString (filter_doc filters)))
  then false
  else if JS.truthy nameLower
          && (negb (JS.truthy (name it))
              || negb (JS.includes (JS.toLowerCase (default EmptyString (name it)))
                         (default EmptyString nameLower)))
  then false
  else if JS.truthy altLower
          && (negb (JS.truthy (alt it))
              || negb (JS.includes (JS.toLowerCase (default EmptyString (alt it)))
                         (default EmptyString altLower)))
  then false
  else if flag (unusedOnly filters) && JS.truthy (doc it)
          && negb (JS.strictEq (doc it) EmptyString)
  then false
  else if flag (missingAlt filters) && JS.truthy (alt it)
          && negb (JS.strictEq (alt it) EmptyString)
          && negb (JS.strictEq (alt it) "null")
  then false
  else true.

Inductive SearchResult :=
| SearchData (results : list CatalogueEntry) (count : nat)
| SearchError (e : ErrorResponse).

(** [async function searchMedia(org, repo, path, filters)] *)
Definition searchMedia (env : Env) (org repo : string) (path : option string)
    (filters : Filters) (mediaCache : gmap string CacheEntry)
  : SearchResult * gmap string CacheEntry :=
  match getMediaIndex env org repo path mediaCache with
  | (IndexError e, mediaCache') => (SearchError e, mediaCache')
  | (IndexData data _ _ _, mediaCache') =>
      let results := List.filter (searchCallback filters) data in
      (SearchData results (length results), mediaCache')
  end.

(** [{ initialized: true }] or
    [{ initialized: false, ...buildErrorResponse(org, repo, path, error) }]. *)
Inductive StatusResult :=
| Initialized
| NotInitialized (e : ErrorResponse).

(** [async function checkMediaStatus(org, repo, path)] *)
Definition checkMediaStatus (env : Env) (org repo : string)
    (path : option string) : StatusResult :=
  match daAdminRequest env (buildMediaUrl env org repo path) with
  | Resolves _ => Initialized
  | Rejects message => NotInitialized (buildErrorResponse env org repo path message)
  end.

(** ** Further reference definitions *)

Definition countIf {A : Type} (f : A -> bool) (l : list A) : nat :=
  length (List.filter f l).

(** The canonical key of a catalogue entry. *)
Definition entryKey (e : CatalogueEntry) : string :=
  getGroupingKey (url (item e)).

Definition sumUsageCounts (items : list CatalogueEntry) : nat :=
  list_sum (map usageCount items).

Definition totalUsages (usageIdx : JSMap.t (list UsageDetail)) : nat :=
  list_sum (map (@length UsageDetail) (JSMap.values usageIdx)).

(** The three classes of alt text told apart by the statistics. *)
Definition altNotFilled (r : RawRecord) : bool := JS.strictEq (alt r) "null".

Definition altDecorative (r : RawRecord) : bool :=
  negb (JS.strictEq (alt r) "null") && negb (JS.truthy (alt r)).

Definition altFilled (r : RawRecord) : bool :=
  negb (JS.strictEq (alt r) "null") && JS.truthy (alt r).

(** The record is filed under [ty] by the statistics. *)
Definition hasType (ty : string) (r : RawRecord) : bool :=
  String.eqb (typeOrUnknown r) ty.

(** The type name is not one under which a plain object inherits a
    member. *)
Definition plainType (ty : string) : bool :=
  negb (String.eqb ty "__proto__")
  && negb (JSMap.has ty objectPrototypeMethods).

Definition plainRecord (r : RawRecord) : bool := plainType (typeOrUnknown r).

(** [n] times the character ['1']. *)
Fixpoint ones (n : nat) : string :=
  match n with
  | 0 => EmptyString
  | S n' => String "1"%char (ones n')
  end.

(** The own property that the statistics loop leaves under the name [ty]
    once [n] records have been filed under it: none when [n] is 0 or [ty]
    is [__proto__]; the text of the inherited method followed by one ['1']
    per record when [ty] names one; the number [n] otherwise. *)
Definition ownEntry (ty : string) (n : nat) : option JSVal :=
  if Nat.eqb n 0 then None
  else if String.eqb ty "__proto__" then None
  else
    match inheritedMethod ty with
    | Some text => Some (Str (text +:+ ones n))
    | None => Some (Num n)
    end.

Definition byTypeOf (raw : list RawRecord) (ty : string) : option JSVal :=
  ownEntry ty (countIf (hasType ty) raw).

(** The record names no using document. *)
Definition unusedRecord (r : RawRecord) : bool := negb (JS.truthy (doc r)).

(** Every cache entry is what the builder makes of its own raw records. *)
Definition builtCache (mediaCache : gmap string CacheEntry) : Prop :=
  forall key cached,
    mediaCache !! key = Some cached ->
    structures cached = buildMediaStructures (rawData (structures cached)).

(** The six criteria of a search, each on its own: a criterion that is
    not set lets every item through. *)
Definition typeOk (f : Filters) (it : RawRecord) : bool :=
  negb (JS.truthy (filter_type f))
  || (JS.truthy (type it)
      && JS.includes (default EmptyString (type it))
           (default EmptyString (filter_type f))).

Definition docOk (f : Filters) (it : RawRecord) : bool :=
  negb (JS.truthy (filter_doc f))
  || JS.strictEq (doc it) (default EmptyString (filter_doc f)).

Definition nameOk (f : Filters) (it : RawRecord) : bool :=
  negb (JS.truthy (JS.toLowerCase <$> filter_name f))
  || (JS.truthy (name it)
      && JS.includes (JS.toLowerCase (default EmptyString (name it)))
           (default EmptyString (JS.toLowerCase <$> filter_name f))).

Definition altOk (f : Filters) (it : RawRecord) : bool :=
  negb (JS.truthy (JS.toLowerCase <$> filter_alt f))
  || (JS.truthy (alt it)
      && JS.includes (JS.toLowerCase (default EmptyString (alt it)))
           (default EmptyString (JS.toLowerCase <$> filter_alt f))).

Definition unusedOk (f : Filters) (it : RawRecord) : bool :=
  negb (flag (unusedOnly f)) || unusedRecord it.

Definition missingAltOk (f : Filters) (it : RawRecord) : bool :=
  negb (flag (missingAlt f)) || negb (altFilled it).

Definition noFilters : Filters :=
  {| filter_type := None; filter_doc := None; filter_name := None;
     filter_alt := None; unusedOnly := None; missingAlt := None |}.

(** Every criterion that [f] sets is set to the same value by [f']. *)
Definition refines (f' f : Filters) : Prop :=
  (JS.truthy (filter_type f) = true -> filter_type f' = filter_type f)
  /\ (JS.truthy (filter_doc f) = true -> filter_doc f' = filter_doc f)
  /\ (JS.truthy (JS.toLowerCase <$> filter_name f) = true ->
      filter_name f' = filter_name f)
  /\ (JS.truthy (JS.toLowerCase <$> filter_alt f) = true ->
      filter_alt f' = filter_alt f)
  /\ (flag (unusedOnly f) = true -> flag (unusedOnly f') = true)
  /\ (flag (missingAlt f) = true -> flag (missingAlt f') = true).

Definition onlyUnused : Filters :=
  {| filter_type := None; filter_doc := None; filter_name := None;
     filter_alt := None; unusedOnly := Some true; missingAlt := None |}.

Definition unusedAndMissingAlt : Filters :=
  {| filter_type := None; filter_doc := None; filter_name := None;
     filter_alt := None; unusedOnly := Some true; missingAlt := Some true |}.

Definition docFilter (d : string) : Filters :=
  {| filter_type := None; filter_doc := Some d; filter_name := None;
     filter_alt := None; unusedOnly := None; missingAlt := None |}.

(** * Properties *)

Section KeyNormalizer.

Lemma split_no_sep (u : string) :
  JS.mem_char "?"%char u = false -> JS.split "?"%char u = [u].
Proof.
  induction u as [|c u IH]; simpl; [reflexivity|].
  intros H. apply orb_false_iff in H as [Hc Hu].
  rewrite Hc, (IH Hu). reflexivity.
Qed.

Lemma split_head_at_sep (p rest : string) :
  JS.mem_char "?"%char p = false ->
  hd EmptyString (JS.split "?"%char (p +:+ String "?"%char rest)) = p.
Proof.
  induction p as [|c p IH]; simpl; [reflexivity|].
  intros H. apply orb_false_iff in H as [Hc Hp].
  rewrite Hc. specialize (IH Hp).
  destruct (JS.split "?"%char (p +:+ String "?"%char rest)); simpl in *;
    congruence.
Qed.

Lemma getGroupingKey_nonempty (c : ascii) (u : string) :
  getGroupingKey (Some (String c u)) =
  JS.toLowerCase (hd EmptyString (JS.split "?"%char (String c u))).
Proof. reflexivity. Qed.

Lemma getGroupingKey_falsy (url : option string) :
  JS.truthy url = false -> getGroupingKey url = EmptyString.
Proof. destruct url as [[|c u]|]; simpl; [reflexivity|discriminate|reflexivity]. Qed.

End KeyNormalizer.

(** C5. The key normalizer sends an absent or empty location identifier
    to the empty string; any other identifier is cut at its first ['?']
    and lower-cased.  Hence for every [u] without a ['?'] the keys of [u]
    and of [u + "?x=1"] coincide. *)
Theorem getGroupingKey_spec (u rest : string) :
  JS.mem_char "?"%char u = false ->
  getGroupingKey None = EmptyString
  /\ getGroupingKey (Some EmptyString) = EmptyString
  /\ getGroupingKey (Some (u +:+ String "?"%char rest)) = JS.toLowerCase u
  /\ getGroupingKey (Some u) = JS.toLowerCase u
  /\ getGroupingKey (Some u) = getGroupingKey (Some (u +:+ "?x=1")).
Proof.
  intros Hu.
  assert (Hcut : forall r,
    getGroupingKey (Some (u +:+ String "?"%char r)) = JS.toLowerCase u).
  { intros r. destruct u as [|c u']; [reflexivity|].
    change (String c u' +:+ String "?"%char r)
      with (String c (u' +:+ String "?"%char r)).
    rewrite getGroupingKey_nonempty.
    change (String c (u' +:+ String "?"%char r))
      with (String c u' +:+ String "?"%char r).
    now rewrite split_head_at_sep. }
  assert (Hplain : getGroupingKey (Some u) = JS.toLowerCase u).
  { destruct u as [|c u']; [reflexivity|].
    rewrite getGroupingKey_nonempty, split_no_sep by exact Hu. reflexivity. }
  repeat split; auto.
  rewrite Hplain. symmetry. apply (Hcut "x=1").
Qed.

Lemma getGroupingKey_spec_witness :
  getGroupingKey (Some "Media_A.PNG") = getGroupingKey (Some "Media_A.PNG?x=1").
Proof.
  apply (getGroupingKey_spec "Media_A.PNG" "width=750"). reflexivity.
Defined.

(** ** Facts about [JSMap] *)

Section JSMapFacts.

Context {V : Type}.
Implicit Types (m : JSMap.t V) (k : string) (v : V).

Lemma get_set_eq m k v : JSMap.get k (JSMap.set k v m) = Some v.
Proof.
  induction m as [|[k' v'] m IH]; simpl.
  - now rewrite String.eqb_refl.
  - destruct (String.eqb k k') eqn:E; simpl.
    + now rewrite String.eqb_refl.
    + now rewrite E.
Qed.

Lemma get_set_ne m k k' v :
  k <> k' -> JSMap.get k' (JSMap.set k v m) = JSMap.get k' m.
Proof.
  intros Hne. induction m as [|[k0 v0] m IH]; simpl.
  - destruct (String.eqb_spec k' k); congruence.
  - destruct (String.eqb_spec k k0) as [->|Hk]; simpl.
    + destruct (String.eqb_spec k' k0); congruence.
    + now rewrite IH.
Qed.

Lemma get_set m k k' v :
  JSMap.get k' (JSMap.set k v m) =
  if String.eqb k' k then Some v else JSMap.get k' m.
Proof.
  destruct (String.eqb_spec k' k) as [->|Hne].
  - apply get_set_eq.
  - apply get_set_ne. congruence.
Qed.

Lemma set_set m k v v' :
  JSMap.set k v' (JSMap.set k v m) = JSMap.set k v' m.
Proof.
  induction m as [|[k0 v0] m IH]; simpl.
  - now rewrite String.eqb_refl.
  - destruct (String.eqb k k0) eqn:E; simpl.
    + now rewrite String.eqb_refl.
    + now rewrite E, IH.
Qed.

Lemma has_mem_keys m k : JSMap.has k m = JSSet.mem k (JSMap.keys m).
Proof.
  unfold JSMap.has, JSSet.mem.
  induction m as [|[k0 v0] m IH]; simpl; [reflexivity|].
  destruct (String.eqb k k0); simpl; [reflexivity|exact IH].
Qed.

(** [set] touches the key sequence exactly as [Set.prototype.add] does. *)
Lemma keys_set m k v :
  JSMap.keys (JSMap.set k v m) = JSSet.add k (JSMap.keys m).
Proof.
  unfold JSSet.add, JSSet.mem.
  induction m as [|[k0 v0] m IH]; simpl; [reflexivity|].
  destruct (String.eqb_spec k k0) as [->|Hne]; simpl; [reflexivity|].
  rewrite IH. unfold JSMap.keys.
  destruct (existsb (String.eqb k) (map fst m)); reflexivity.
Qed.

Lemma get_Some_In m k v : JSMap.get k m = Some v -> In (k, v) m.
Proof.
  induction m as [|[k0 v0] m IH]; simpl; [discriminate|].
  destruct (String.eqb_spec k k0) as [->|Hne].
  - intros [= ->]. now left.
  - intros H. right. auto.
Qed.

Lemma In_get_Some m k v :
  NoDup (JSMap.keys m) -> In (k, v) m -> JSMap.get k m = Some v.
Proof.
  induction m as [|[k0 v0] m IH]; simpl; [tauto|].
  rewrite NoDup_cons. intros [Hk0 Hnd] [[= -> ->]|Hin].
  - now rewrite String.eqb_refl.
  - destruct (String.eqb_spec k k0) as [->|Hne]; [|auto].
    exfalso. apply Hk0. apply list_elem_of_In.
    change k0 with (fst (k0, v)). now apply in_map.
Qed.

Lemma In_values m v : In v (JSMap.values m) -> exists k, In (k, v) m.
Proof.
  unfold JSMap.values. rewrite in_map_iff.
  intros [[k v'] [Hv Hin]]. simpl in Hv. subst. eauto.
Qed.

Lemma length_values_keys m :
  length (JSMap.values m) = length (JSMap.keys m).
Proof. unfold JSMap.values, JSMap.keys. now rewrite !length_map. Qed.

End JSMapFacts.

(** ** Facts about [JSSet] *)

Section JSSetFacts.

Implicit Types (x y : string) (s l : list string).

Lemma mem_true s x : JSSet.mem x s = true <-> x ∈ s.
Proof.
  unfold JSSet.mem. rewrite existsb_exists, list_elem_of_In. split.
  - intros [y [Hin Heq]]. apply String.eqb_eq in Heq. now subst.
  - intros Hin. exists x. split; [exact Hin|apply String.eqb_refl].
Qed.

Lemma mem_false s x : JSSet.mem x s = false <-> x ∉ s.
Proof.
  rewrite <- mem_true. destruct (JSSet.mem x s); split; congruence.
Qed.

Lemma mem_app s1 s2 x :
  JSSet.mem x (s1 ++ s2) = JSSet.mem x s1 || JSSet.mem x s2.
Proof. apply existsb_app. Qed.

Lemma of_list_snoc l x :
  JSSet.of_list (l ++ [x]) = JSSet.add x (JSSet.of_list l).
Proof. unfold JSSet.of_list. now rewrite fold_left_app. Qed.

Lemma elem_of_add s x y : y ∈ JSSet.add x s <-> y = x \/ y ∈ s.
Proof.
  unfold JSSet.add. destruct (JSSet.mem x s) eqn:E.
  - apply mem_true in E. split; [auto|]. intros [->|H]; assumption.
  - rewrite elem_of_app, list_elem_of_singleton. tauto.
Qed.

Lemma elem_of_of_list l y : y ∈ JSSet.of_list l <-> y ∈ l.
Proof.
  induction l as [|x l IH] using rev_ind.
  - reflexivity.
  - rewrite of_list_snoc, elem_of_add, elem_of_app, list_elem_of_singleton, IH.
    tauto.
Qed.

Lemma NoDup_add s x : NoDup s -> NoDup (JSSet.add x s).
Proof.
  intros Hs. unfold JSSet.add. destruct (JSSet.mem x s) eqn:E; [exact Hs|].
  apply mem_false in E. apply NoDup_app. repeat split.
  - exact Hs.
  - intros y Hy Hyx. apply list_elem_of_singleton in Hyx. now subst.
  - apply NoDup_singleton.
Qed.

Lemma NoDup_of_list l : NoDup (JSSet.of_list l).
Proof.
  induction l as [|x l IH] using rev_ind.
  - apply NoDup_nil_2.
  - rewrite of_list_snoc. now apply NoDup_add.
Qed.

Lemma length_of_list_le l : length (JSSet.of_list l) <= length l.
Proof.
  induction l as [|x l IH] using rev_ind; [reflexivity|].
  rewrite of_list_snoc, length_app. unfold JSSet.add.
  destruct (JSSet.mem x (JSSet.of_list l)); [|rewrite length_app]; simpl; lia.
Qed.

Lemma length_of_list_eq l :
  length (JSSet.of_list l) = length l <-> NoDup l.
Proof.
  induction l as [|x l IH] using rev_ind.
  - split; [intros _; apply NoDup_nil_2|reflexivity].
  - rewrite of_list_snoc, length_app. unfold JSSet.add.
    pose proof (length_of_list_le l) as Hle.
    rewrite NoDup_app. simpl.
    destruct (JSSet.mem x (JSSet.of_list l)) eqn:E.
    + apply mem_true in E. rewrite elem_of_of_list in E. split; [lia|].
      intros (_ & Hdisj & _). exfalso.
      apply (Hdisj x E). now apply list_elem_of_singleton.
    + apply mem_false in E. rewrite elem_of_of_list in E.
      rewrite length_app. simpl. split.
      * intros Hlen. repeat split.
        -- apply IH. lia.
        -- intros y Hy Hyx. apply list_elem_of_singleton in Hyx. now subst.
        -- apply NoDup_singleton.
      * intros (Hnd & _ & _). apply IH in Hnd. lia.
Qed.

Lemma filter_filter_and (f g : string -> bool) l :
  List.filter f (List.filter g l) = List.filter (fun y => g y && f y) l.
Proof.
  induction l as [|x l IH]; simpl; [reflexivity|].
  destruct (g x); simpl; [destruct (f x)|]; now rewrite IH.
Qed.

Lemma fold_add_firstOccurrences l : forall s,
  fold_left (fun s x => JSSet.add x s) l s =
  s ++ List.filter (fun y => negb (JSSet.mem y s)) (firstOccurrences l).
Proof.
  induction l as [|x l IH]; intros s; simpl.
  - now rewrite app_nil_r.
  - rewrite IH. unfold JSSet.add. destruct (JSSet.mem x s) eqn:E; simpl.
    + f_equal. rewrite filter_filter_and. apply List.filter_ext.
      intros y. destruct (String.eqb_spec y x) as [->|Hne]; simpl.
      * now rewrite E.
      * reflexivity.
    + rewrite <- app_assoc. simpl. f_equal. f_equal.
      rewrite filter_filter_and. apply List.filter_ext.
      intros y. rewrite mem_app. unfold JSSet.mem at 2. simpl.
      rewrite orb_false_r, negb_orb. apply andb_comm.
Qed.

(** A [Set] built from a list holds its distinct elements in the order
    of their first occurrences. *)
Lemma of_list_firstOccurrences l : JSSet.of_list l = firstOccurrences l.
Proof.
  unfold JSSet.of_list. rewrite fold_add_firstOccurrences. simpl.
  induction (firstOccurrences l) as [|y t IH]; simpl; [reflexivity|].
  now rewrite IH.
Qed.

End JSSetFacts.

(** ** Facts about the index builder *)

Section BuilderFacts.

Implicit Types (raw : list RawRecord) (r : RawRecord) (k : string).

Lemma find_snoc {A : Type} (f : A -> bool) (l : list A) (a : A) :
  find f (l ++ [a]) =
  match find f l with
  | Some x => Some x
  | None => if f a then Some a else None
  end.
Proof.
  induction l as [|x l IH]; simpl; [reflexivity|].
  destruct (f x); [reflexivity|exact IH].
Qed.

Lemma find_none_filter {A : Type} (f : A -> bool) (l : list A) :
  find f l = None -> List.filter f l = [].
Proof.
  induction l as [|x l IH]; simpl; [reflexivity|].
  destruct (f x); [discriminate|exact IH].
Qed.

Lemma carries_true k r :
  carries k r = true <-> hasUrl r = true /\ getGroupingKey (url r) = k.
Proof.
  unfold carries, hasUrl. rewrite andb_true_iff, String.eqb_eq. tauto.
Qed.

Lemma carries_own_key r :
  hasUrl r = true -> carries (getGroupingKey (url r)) r = true.
Proof. intros H. apply carries_true. auto. Qed.

Lemma carries_other_key k r :
  k <> getGroupingKey (url r) -> carries k r = false.
Proof.
  intros Hne. destruct (carries k r) eqn:E; [|reflexivity].
  apply carries_true in E as [_ E]. congruence.
Qed.

Lemma carries_no_url k r : hasUrl r = false -> carries k r = false.
Proof. unfold carries, hasUrl. now intros ->. Qed.

Lemma build_step_skip acc r :
  hasUrl r = false -> build_step acc r = acc.
Proof.
  unfold hasUrl, build_step. intros ->. now destruct acc.
Qed.

(** One turn of the loop on an indexed record, with the two
    [has]/[set]/[get] sequences collapsed. *)
Lemma build_step_keep (m : JSMap.t CatalogueEntry)
    (ix : JSMap.t (list UsageDetail)) r :
  hasUrl r = true ->
  build_step (m, ix) r =
  (JSMap.set (getGroupingKey (url r))
     match JSMap.get (getGroupingKey (url r)) m with
     | Some e => {| item := item e; usageCount := usageCount e + 1 |}
     | None => {| item := r; usageCount := 0 + 1 |}
     end m,
   JSMap.set (getGroupingKey (url r))
     (default [] (JSMap.get (getGroupingKey (url r)) ix) ++ [usageDetail r])
     ix).
Proof.
  unfold hasUrl, build_step, JSMap.has. intros ->. simpl.
  set (g := getGroupingKey (url r)).
  destruct (JSMap.get g m) as [e|] eqn:Em;
    destruct (JSMap.get g ix) as [us|] eqn:Eix; simpl;
    rewrite ?Em, ?Eix, ?get_set_eq, ?set_set; reflexivity.
Qed.

(** The [get]s of [build_step] never miss. *)
Lemma build_step_get (m : JSMap.t CatalogueEntry)
    (ix : JSMap.t (list UsageDetail)) r :
  hasUrl r = true ->
  is_Some (JSMap.get (getGroupingKey (url r)) (fst (build_step (m, ix) r)))
  /\ is_Some (JSMap.get (getGroupingKey (url r)) (snd (build_step (m, ix) r))).
Proof.
  intros H. rewrite build_step_keep by exact H. simpl.
  rewrite !get_set_eq. split; eexists; reflexivity.
Qed.

Lemma build_maps_snoc raw r :
  build_maps (raw ++ [r]) = build_step (build_maps raw) r.
Proof. unfold build_maps. now rewrite fold_left_app. Qed.

Lemma keysOf_snoc raw r :
  keysOf (raw ++ [r]) =
  keysOf raw ++ (if hasUrl r then [getGroupingKey (url r)] else []).
Proof.
  unfold keysOf. rewrite List.filter_app, map_app. simpl.
  now destruct (hasUrl r).
Qed.

Lemma length_keysOf raw :
  length (keysOf raw) = length (List.filter hasUrl raw).
Proof. unfold keysOf. apply length_map. Qed.

(** Both maps hold the canonical keys in the order of first appearance. *)
Lemma build_maps_keys raw :
  JSMap.keys (fst (build_maps raw)) = JSSet.of_list (keysOf raw)
  /\ JSMap.keys (snd (build_maps raw)) = JSSet.of_list (keysOf raw).
Proof.
  induction raw as [|r raw [IH1 IH2]] using rev_ind; [split; reflexivity|].
  rewrite build_maps_snoc, keysOf_snoc.
  destruct (build_maps raw) as [m ix]. simpl in IH1, IH2.
  destruct (hasUrl r) eqn:Hr.
  - rewrite build_step_keep by exact Hr. simpl.
    now rewrite !keys_set, of_list_snoc, IH1, IH2.
  - rewrite build_step_skip by exact Hr. simpl.
    now rewrite app_nil_r.
Qed.

(** The catalogue entry stored under a key. *)
Lemma build_maps_entry raw k :
  JSMap.get k (fst (build_maps raw)) =
  match find (carries k) raw with
  | Some r0 =>
      Some {| item := r0;
              usageCount := length (List.filter (carries k) raw) |}
  | None => None
  end.
Proof.
  induction raw as [|r raw IH] using rev_ind; [reflexivity|].
  rewrite build_maps_snoc, find_snoc, List.filter_app, length_app.
  destruct (build_maps raw) as [m ix]. simpl in IH. simpl List.filter.
  destruct (hasUrl r) eqn:Hr.
  - rewrite build_step_keep by exact Hr. simpl fst. rewrite get_set.
    destruct (String.eqb_spec k (getGroupingKey (url r))) as [->|Hne].
    + rewrite (carries_own_key r Hr), IH.
      destruct (find (carries (getGroupingKey (url r))) raw) eqn:F.
      * reflexivity.
      * rewrite (find_none_filter _ _ F). reflexivity.
    + rewrite (carries_other_key k r Hne), IH. simpl.
      rewrite Nat.add_0_r. now destruct (find (carries k) raw).
  - rewrite build_step_skip by exact Hr. simpl fst.
    rewrite (carries_no_url k r Hr), IH. simpl.
    rewrite Nat.add_0_r. now destruct (find (carries k) raw).
Qed.

(** The usage sequence stored under a key. *)
Lemma build_maps_usages raw k :
  JSMap.get k (snd (build_maps raw)) =
  match find (carries k) raw with
  | Some _ => Some (map usageDetail (List.filter (carries k) raw))
  | None => None
  end.
Proof.
  induction raw as [|r raw IH] using rev_ind; [reflexivity|].
  rewrite build_maps_snoc, find_snoc, List.filter_app, map_app.
  destruct (build_maps raw) as [m ix]. simpl in IH. simpl List.filter.
  destruct (hasUrl r) eqn:Hr.
  - rewrite build_step_keep by exact Hr. simpl snd. rewrite get_set.
    destruct (String.eqb_spec k (getGroupingKey (url r))) as [->|Hne].
    + rewrite (carries_own_key r Hr), IH.
      destruct (find (carries (getGroupingKey (url r))) raw) eqn:F.
      * reflexivity.
      * rewrite (find_none_filter _ _ F). reflexivity.
    + rewrite (carries_other_key k r Hne), IH. simpl.
      rewrite app_nil_r. now destruct (find (carries k) raw).
  - rewrite build_step_skip by exact Hr. simpl snd.
    rewrite (carries_no_url k r Hr), IH. simpl.
    rewrite app_nil_r. now destruct (find (carries k) raw).
Qed.

Lemma buildMediaStructures_fields raw :
  uniqueItems (buildMediaStructures raw) = JSMap.values (fst (build_maps raw))
  /\ usageIndex (buildMediaStructures raw) = snd (build_maps raw)
  /\ rawData (buildMediaStructures raw) = raw.
Proof. unfold buildMediaStructures. now destruct (build_maps raw). Qed.

(** Every catalogue entry sits in the map under some key. *)
Lemma uniqueItems_get raw (e : CatalogueEntry) :
  In e (uniqueItems (buildMediaStructures raw)) ->
  exists k, JSMap.get k (fst (build_maps raw)) = Some e.
Proof.
  destruct (buildMediaStructures_fields raw) as (-> & _ & _).
  intros [k Hin]%In_values. exists k.
  apply In_get_Some; [|exact Hin].
  destruct (build_maps_keys raw) as [-> _]. apply NoDup_of_list.
Qed.

Lemma get_uniqueItems raw k (e : CatalogueEntry) :
  JSMap.get k (fst (build_maps raw)) = Some e ->
  In e (uniqueItems (buildMediaStructures raw)).
Proof.
  destruct (buildMediaStructures_fields raw) as (-> & _ & _).
  intros H%get_Some_In. unfold JSMap.values.
  change e with (snd (k, e)). now apply in_map.
Qed.

(** Records without a location identifier leave no trace in the maps. *)
Lemma fold_build_step_filter raw : forall acc,
  fold_left build_step raw acc =
  fold_left build_step (List.filter hasUrl raw) acc.
Proof.
  induction raw as [|r raw IH]; intros acc; simpl; [reflexivity|].
  destruct (hasUrl r) eqn:Hr; simpl.
  - apply IH.
  - rewrite build_step_skip by exact Hr. apply IH.
Qed.

End BuilderFacts.

Section CatalogueFacts.

Implicit Types (raw : list RawRecord) (e : CatalogueEntry) (k : string).

(** An entry stored under [k] was seeded by the first record carrying
    [k] and has been counted once per such record. *)
Lemma entry_shape raw k e :
  JSMap.get k (fst (build_maps raw)) = Some e ->
  find (carries k) raw = Some (item e)
  /\ usageCount e = length (List.filter (carries k) raw)
  /\ hasUrl (item e) = true
  /\ getGroupingKey (url (item e)) = k.
Proof.
  rewrite build_maps_entry.
  destruct (find (carries k) raw) as [r0|] eqn:F; [|discriminate].
  intros [= <-]. simpl.
  apply find_some in F as [_ Hc]. apply carries_true in Hc as [Hu Hk].
  auto.
Qed.

Lemma entry_of_uniqueItems raw e :
  In e (uniqueItems (buildMediaStructures raw)) ->
  JSMap.get (getGroupingKey (url (item e))) (fst (build_maps raw)) = Some e.
Proof.
  intros [k Hk]%uniqueItems_get.
  destruct (entry_shape raw k e Hk) as (_ & _ & _ & Hkey).
  rewrite Hkey. exact Hk.
Qed.

Lemma filter_nonempty_of_find {A : Type} (f : A -> bool) (l : list A) (a : A) :
  find f l = Some a -> 1 <= length (List.filter f l).
Proof.
  induction l as [|x l IH]; simpl; [discriminate|].
  destruct (f x); simpl; [lia|exact IH].
Qed.

Lemma find_app_Some {A : Type} (f : A -> bool) (l l' : list A) (a : A) :
  find f l = Some a -> find f (l ++ l') = Some a.
Proof.
  induction l as [|x l IH]; simpl; [discriminate|].
  destruct (f x); [auto|exact IH].
Qed.

End CatalogueFacts.

(** ** The index builder: claims *)

(** C1. In the structures built from any raw record sequence, the
    [usageCount] of every catalogue entry is the length of the usage-index
    sequence stored under the canonical key of that entry. *)
Theorem usageCount_is_usageIndex_length
    (raw : list RawRecord) (e : CatalogueEntry) :
  In e (uniqueItems (buildMediaStructures raw)) ->
  exists usages,
    JSMap.get (getGroupingKey (url (item e)))
      (usageIndex (buildMediaStructures raw)) = Some usages
    /\ usageCount e = length usages.
Proof.
  intros He%entry_of_uniqueItems.
  destruct (entry_shape raw _ e He) as (F & Hn & _ & _).
  destruct (buildMediaStructures_fields raw) as (_ & -> & _).
  rewrite build_maps_usages, F. eexists. split; [reflexivity|].
  now rewrite length_map.
Qed.

Lemma usageCount_is_usageIndex_length_witness :
  exists usages,
    JSMap.get "a.png" (usageIndex (buildMediaStructures sampleRaw)) = Some usages
    /\ 2 = length usages.
Proof.
  apply (usageCount_is_usageIndex_length sampleRaw
           {| item := mkRecord (Some "a.png?x=1") (Some "p1") (Some "");
              usageCount := 2 |}).
  vm_compute. left. reflexivity.
Defined.

(** C3. The catalogue has at most as many entries as there are raw
    records with a non-empty location identifier, and exactly as many iff
    the canonical keys of those records are pairwise distinct.  Records
    whose location identifier is empty or absent reach neither structure:
    dropping them beforehand changes neither [uniqueItems] nor the usage
    index, no catalogue entry copies such a record, and every usage
    sequence lists the records carrying its key and nothing else. *)
Theorem dedup_invariant (raw : list RawRecord) :
  length (uniqueItems (buildMediaStructures raw))
    <= length (List.filter hasUrl raw)
  /\ (length (uniqueItems (buildMediaStructures raw))
        = length (List.filter hasUrl raw)
      <-> NoDup (keysOf raw))
  /\ uniqueItems (buildMediaStructures raw)
       = uniqueItems (buildMediaStructures (List.filter hasUrl raw))
  /\ usageIndex (buildMediaStructures raw)
       = usageIndex (buildMediaStructures (List.filter hasUrl raw))
  /\ (forall e, In e (uniqueItems (buildMediaStructures raw)) ->
        hasUrl (item e) = true)
  /\ (forall k usages,
        JSMap.get k (usageIndex (buildMediaStructures raw)) = Some usages ->
        usages = map usageDetail (List.filter (carries k) raw)).
Proof.
  assert (Hlen : length (uniqueItems (buildMediaStructures raw))
                 = length (JSSet.of_list (keysOf raw))).
  { destruct (buildMediaStructures_fields raw) as (-> & _ & _).
    rewrite length_values_keys. now destruct (build_maps_keys raw) as [-> _]. }
  assert (Hfilter : build_maps raw = build_maps (List.filter hasUrl raw)).
  { apply fold_build_step_filter. }
  split; [|split; [|split; [|split; [|split]]]].
  - rewrite Hlen, <- length_keysOf. apply length_of_list_le.
  - rewrite Hlen, <- length_keysOf. apply length_of_list_eq.
  - unfold buildMediaStructures. rewrite <- Hfilter.
    now destruct (build_maps raw).
  - unfold buildMediaStructures. rewrite <- Hfilter.
    now destruct (build_maps raw).
  - intros e He%entry_of_uniqueItems.
    now destruct (entry_shape raw _ e He) as (_ & _ & Hu & _).
  - intros k usages.
    destruct (buildMediaStructures_fields raw) as (_ & -> & _).
    rewrite build_maps_usages.
    destruct (find (carries k) raw); [|discriminate]. now intros [= <-].
Qed.

Lemma dedup_invariant_witness :
  length (uniqueItems (buildMediaStructures sampleRaw))
    <= length (List.filter hasUrl sampleRaw)
  /\ ~ NoDup (keysOf sampleRaw).
Proof.
  destruct (dedup_invariant sampleRaw) as (Hle & Hiff & _).
  split; [exact Hle|].
  intros Hnd. apply Hiff in Hnd. vm_compute in Hnd. discriminate.
Defined.

(** C9. For every catalogue entry of a built index, with [k] its canonical
    key: the fields other than [usageCount] are those of the first raw
    record, in document order, that carries [k]; [usageCount] is the number
    of records carrying [k] and is at least 1; and whatever records follow,
    the entry for [k] keeps these fields and only gains one count per
    further record carrying [k]. *)
Theorem catalogue_entry_first_seen
    (raw : list RawRecord) (e : CatalogueEntry) :
  In e (uniqueItems (buildMediaStructures raw)) ->
  find (carries (getGroupingKey (url (item e)))) raw = Some (item e)
  /\ usageCount e
       = length (List.filter (carries (getGroupingKey (url (item e)))) raw)
  /\ 1 <= usageCount e
  /\ forall later : list RawRecord,
       exists e',
         In e' (uniqueItems (buildMediaStructures (raw ++ later)))
         /\ item e' = item e
         /\ usageCount e'
              = usageCount e
                + length (List.filter
                            (carries (getGroupingKey (url (item e)))) later).
Proof.
  intros He%entry_of_uniqueItems.
  destruct (entry_shape raw _ e He) as (F & Hn & _ & _).
  split; [exact F|]. split; [exact Hn|]. split.
  - rewrite Hn. now apply filter_nonempty_of_find with (a := item e).
  - intros later.
    set (k := getGroupingKey (url (item e))) in *.
    pose proof (build_maps_entry (raw ++ later) k) as Hget.
    rewrite (find_app_Some _ raw later _ F) in Hget.
    eexists. split; [eapply get_uniqueItems; exact Hget|]. simpl.
    split; [reflexivity|].
    now rewrite List.filter_app, length_app, Hn.
Qed.

Lemma catalogue_entry_first_seen_witness :
  find (carries "a.png") sampleRaw
    = Some (mkRecord (Some "a.png?x=1") (Some "p1") (Some ""))
  /\ 2 = length (List.filter (carries "a.png") sampleRaw).
Proof.
  pose proof (catalogue_entry_first_seen sampleRaw
                {| item := mkRecord (Some "a.png?x=1") (Some "p1") (Some "");
                   usageCount := 2 |}) as H.
  destruct H as (H1 & H2 & _).
  - vm_compute. left. reflexivity.
  - split; [exact H1|exact H2].
Defined.

(** ** Facts about the cache operations *)

Section CacheFacts.

Variables (env : Env) (org repo : string) (path : option string).
Implicit Types (mediaCache : gmap string CacheEntry).

Lemma getMediaIndex_hit mediaCache cached :
  mediaCache !! cacheKey org repo path = Some cached ->
  getMediaIndex env org repo path mediaCache =
  (IndexData (uniqueItems (structures cached))
             (length (uniqueItems (structures cached)))
             (fetchedAt cached) true,
   mediaCache).
Proof. unfold getMediaIndex. now intros ->. Qed.

Lemma getMediaIndex_miss_resolves mediaCache body :
  mediaCache !! cacheKey org repo path = None ->
  daAdminRequest env (buildMediaUrl env org repo path) = Resolves body ->
  getMediaIndex env org repo path mediaCache =
  (IndexData (uniqueItems (buildMediaStructures (mediaDataOf body)))
             (length (uniqueItems (buildMediaStructures (mediaDataOf body))))
             (now env) false,
   <[cacheKey org repo path :=
       {| structures := buildMediaStructures (mediaDataOf body);
          fetchedAt := now env |}]> mediaCache).
Proof. unfold getMediaIndex. now intros -> ->. Qed.

Lemma getMediaIndex_miss_rejects mediaCache message :
  mediaCache !! cacheKey org repo path = None ->
  daAdminRequest env (buildMediaUrl env org repo path) = Rejects message ->
  getMediaIndex env org repo path mediaCache =
  (IndexError (buildErrorResponse env org repo path message), mediaCache).
Proof. unfold getMediaIndex. now intros -> ->. Qed.

(** After a successful [getMediaIndex] the site has a cache entry, and
    the returned [data] is its catalogue. *)
Lemma getMediaIndex_data_cached mediaCache mediaCache' data total t c :
  getMediaIndex env org repo path mediaCache
    = (IndexData data total t c, mediaCache') ->
  exists cached,
    mediaCache' !! cacheKey org repo path = Some cached
    /\ data = uniqueItems (structures cached)
    /\ (c = true -> mediaCache' = mediaCache
                    /\ mediaCache !! cacheKey org repo path = Some cached)
    /\ (c = false ->
          mediaCache !! cacheKey org repo path = None
          /\ exists body,
               daAdminRequest env (buildMediaUrl env org repo path)
                 = Resolves body
               /\ cached = {| structures := buildMediaStructures (mediaDataOf body);
                              fetchedAt := now env |}
               /\ mediaCache' = <[cacheKey org repo path := cached]> mediaCache).
Proof.
  unfold getMediaIndex.
  destruct (mediaCache !! cacheKey org repo path) as [cached|] eqn:E.
  - intros [= <- <- <- <- <-]. exists cached.
    repeat split; auto; discriminate.
  - destruct (daAdminRequest env (buildMediaUrl env org repo path))
      as [message|body] eqn:R; [discriminate|].
    intros [= <- <- <- <- <-]. eexists. split; [apply lookup_insert_eq|].
    split; [reflexivity|]. split; [discriminate|].
    intros _. split; [reflexivity|]. exists body. auto.
Qed.

Lemma getMediaIndex_error_unchanged mediaCache mediaCache' e :
  getMediaIndex env org repo path mediaCache = (IndexError e, mediaCache') ->
  mediaCache' = mediaCache /\ mediaCache !! cacheKey org repo path = None.
Proof.
  unfold getMediaIndex.
  destruct (mediaCache !! cacheKey org repo path) as [cached|] eqn:E;
    [discriminate|].
  destruct (daAdminRequest env (buildMediaUrl env org repo path));
    [|discriminate].
  intros [= <- <-]. auto.
Qed.

Lemma findMediaUsage_loaded (mediaUrl mediaName : option string)
    mediaCache message :
  fst (findMediaUsage env org repo path mediaUrl mediaName mediaCache)
    <> UsageNotLoaded message.
Proof.
  unfold findMediaUsage.
  destruct (getMediaIndex env org repo path mediaCache)
    as [[data total t c|e] mediaCache'] eqn:G; simpl; [|discriminate].
  apply getMediaIndex_data_cached in G as (cached & -> & _).
  simpl. discriminate.
Qed.

End CacheFacts.

(** ** Facts about the statistics loop *)

Section StatsFacts.

Lemma sumValues_insert (m : gmap string JSVal) (k : string) (v : JSVal) :
  sumValues (<[k := v]> m) + numberOf (default (Num 0) (m !! k))
  = sumValues m + numberOf v.
Proof.
  unfold sumValues. destruct (m !! k) as [o|] eqn:E; simpl.
  - rewrite <- (insert_delete_eq m k v).
    rewrite map_fold_insert_L; [|intros; lia|apply lookup_delete_eq].
    rewrite (map_fold_delete_L _ _ k o m); [lia|intros; lia|exact E].
  - rewrite map_fold_insert_L; [lia|intros; lia|exact E].
Qed.

Lemma plainType_inv (ty : string) :
  plainType ty = true ->
  String.eqb ty "__proto__" = false /\ inheritedMethod ty = None.
Proof.
  unfold plainType, inheritedMethod, JSMap.has.
  intros [H1 H2]%andb_true_iff. apply negb_true_iff in H1.
  split; [exact H1|].
  now destruct (JSMap.get ty objectPrototypeMethods).
Qed.

(** On a type name that clashes with no inherited member the object
    behaves as a dictionary of counters. *)
Lemma typeCountStep_plain (tc : gmap string JSVal) (ty : string) :
  plainType ty = true ->
  allNumbers tc ->
  allNumbers (typeCountStep tc ty)
  /\ sumValues (typeCountStep tc ty) = sumValues tc + 1.
Proof.
  intros [Hp Hi]%plainType_inv Hnum. unfold typeCountStep. rewrite Hp, Hi.
  pose proof (sumValues_insert tc ty) as Hs.
  destruct (tc !! ty) as [v|] eqn:E.
  - destruct (Hnum ty v E) as [n ->]. cbn [bump]. split.
    + intros k w. destruct (decide (ty = k)) as [<-|Hne].
      * rewrite lookup_insert_eq. intros [= <-]. eauto.
      * rewrite lookup_insert_ne by exact Hne. apply Hnum.
    + specialize (Hs (Num (n + 1))). cbn in Hs. lia.
  - split.
    + intros k w. destruct (decide (ty = k)) as [<-|Hne].
      * rewrite lookup_insert_eq. intros [= <-]. eauto.
      * rewrite lookup_insert_ne by exact Hne. apply Hnum.
    + specialize (Hs (Num (0 + 1))). cbn in Hs |- *. lia.
Qed.

Lemma stats_step_typeCount (tc : gmap string JSVal) (u : nat) (a : AltStatus)
    (it : RawRecord) :
  (stats_step (tc, u, a) it).1.1 = typeCountStep tc (typeOrUnknown it).
Proof. reflexivity. Qed.

Lemma stats_step_alt (tc : gmap string JSVal) (u : nat) (a : AltStatus)
    (it : RawRecord) :
  altTotal (stats_step (tc, u, a) it).2 = altTotal a + 1.
Proof.
  unfold stats_step, altTotal. simpl.
  destruct (JS.strictEq (alt it) "null"); simpl; [lia|].
  destruct (JS.truthy (alt it)); simpl; lia.
Qed.

Lemma stats_fold_alt (raw : list RawRecord) :
  forall acc : gmap string JSVal * nat * AltStatus,
    altTotal (fold_left stats_step raw acc).2 = altTotal acc.2 + length raw.
Proof.
  induction raw as [|it raw IH]; intros [[tc u] a].
  - simpl. lia.
  - change (fold_left stats_step (it :: raw) (tc, u, a))
      with (fold_left stats_step raw (stats_step (tc, u, a) it)).
    rewrite IH, stats_step_alt. cbn [length fst snd]. lia.
Qed.

Lemma stats_fold_plain (raw : list RawRecord) :
  forallb plainRecord raw = true ->
  forall acc : gmap string JSVal * nat * AltStatus,
    allNumbers acc.1.1 ->
    allNumbers (fold_left stats_step raw acc).1.1
    /\ sumValues (fold_left stats_step raw acc).1.1
       = sumValues acc.1.1 + length raw.
Proof.
  induction raw as [|it raw IH]; intros Hplain [[tc u] a] Hnum.
  - simpl. split; [exact Hnum|lia].
  - simpl in Hplain. apply andb_true_iff in Hplain as [Hit Hraw].
    change (fold_left stats_step (it :: raw) (tc, u, a))
      with (fold_left stats_step raw (stats_step (tc, u, a) it)).
    destruct (typeCountStep_plain tc (typeOrUnknown it) Hit Hnum)
      as [Hnum' Hsum'].
    destruct (IH Hraw (stats_step (tc, u, a) it)) as [Hn Hs].
    { rewrite stats_step_typeCount. exact Hnum'. }
    split; [exact Hn|]. rewrite Hs, stats_step_typeCount, Hsum'.
    cbn [length fst snd]. lia.
Qed.

Lemma stats_loop_counts (raw : list RawRecord) :
  altTotal (stats_loop raw).2 = length raw
  /\ (forallb plainRecord raw = true ->
      allNumbers (stats_loop raw).1.1
      /\ sumValues (stats_loop raw).1.1 = length raw).
Proof.
  unfold stats_loop. split.
  - now rewrite stats_fold_alt.
  - intros Hplain.
    destruct (stats_fold_plain raw Hplain
                (∅, 0, {| filled := 0; decorative := 0; notFilled := 0 |}))
      as [Hn Hs].
    { intros k v. cbn [fst snd]. rewrite lookup_empty. discriminate. }
    split; [exact Hn|]. rewrite Hs. cbn [fst snd]. unfold sumValues.
    now rewrite map_fold_empty.
Qed.

Lemma length_filter_split {A : Type} (f : A -> bool) (l : list A) :
  length l
  = length (List.filter f l) + length (List.filter (fun x => negb (f x)) l).
Proof.
  induction l as [|x l IH]; simpl; [reflexivity|].
  destruct (f x); simpl; lia.
Qed.

End StatsFacts.

(** ** Facts about the usage lookup *)

Section UsageFacts.

Implicit Types (cached : CacheEntry) (usages : list UsageDetail).

Lemma find_all_false {A : Type} (f : A -> bool) (l : list A) :
  (forall x, In x l -> f x = false) -> find f l = None.
Proof.
  induction l as [|x l IH]; simpl; [reflexivity|]. intros H.
  rewrite (H x) by now left. apply IH. intros y Hy. apply H. now right.
Qed.

Lemma truthy_docs_nonEmptyDocs usages :
  map (default EmptyString) (List.filter JS.truthy (map usage_doc usages))
  = nonEmptyDocs usages.
Proof.
  induction usages as [|u us IH]; simpl; [reflexivity|].
  destruct (usage_doc u) as [[|c d]|]; simpl; now rewrite ?IH.
Qed.

Lemma docsOf_firstOccurrences usages :
  docsOf usages = firstOccurrences (nonEmptyDocs usages).
Proof.
  unfold docsOf. now rewrite truthy_docs_nonEmptyDocs, of_list_firstOccurrences.
Qed.

Lemma In_nonEmptyDocs usages (d : string) :
  In d (nonEmptyDocs usages) <->
  d <> EmptyString /\ exists u, In u usages /\ usage_doc u = Some d.
Proof.
  induction usages as [|u us IH]; simpl.
  - split; [tauto|]. intros (_ & x & [] & _).
  - destruct (usage_doc u) as [[|c d']|] eqn:E; simpl; rewrite IH.
    + split.
      * intros (Hd & x & Hx & Hdoc). split; [exact Hd|]. eauto.
      * intros (Hd & x & [<-|Hx] & Hdoc); [congruence|]. eauto.
    + split.
      * intros [<-|(Hd & x & Hx & Hdoc)].
        -- split; [discriminate|]. eauto.
        -- split; [exact Hd|]. eauto.
      * intros (Hd & x & [<-|Hx] & Hdoc).
        -- left. congruence.
        -- right. eauto.
    + split.
      * intros (Hd & x & Hx & Hdoc). split; [exact Hd|]. eauto.
      * intros (Hd & x & [<-|Hx] & Hdoc); [congruence|]. eauto.
Qed.

(** The lookup either gives the not-found object, or answers from the
    usage sequence of a key that is not empty and is in the index. *)
Lemma lookupUsage_cases cached (mediaUrl mediaName : option string) :
  lookupUsage cached mediaUrl mediaName = notFound
  \/ exists key usages,
       resolveKey (usageIndex (structures cached)) mediaUrl mediaName = Some key
       /\ key <> EmptyString
       /\ JSMap.get key (usageIndex (structures cached)) = Some usages
       /\ lookupUsage cached mediaUrl mediaName =
          {| mediaItem := findItem (uniqueItems (structures cached)) key;
             usage_usageCount := length usages;
             documents := docsOf usages;
             allUsages := usages |}.
Proof.
  unfold lookupUsage.
  destruct (resolveKey (usageIndex (structures cached)) mediaUrl mediaName)
    as [key|]; [|now left].
  destruct key as [|c key]; simpl; [now left|].
  destruct (JSMap.get (String c key) (usageIndex (structures cached)))
    as [usages|] eqn:G; [|now left].
  right. exists (String c key), usages. repeat split; [discriminate|exact G].
Qed.

Lemma findMediaUsage_data (env : Env) (org repo : string)
    (path mediaUrl mediaName : option string)
    (mediaCache mediaCache' : gmap string CacheEntry) (u : Usage) :
  findMediaUsage env org repo path mediaUrl mediaName mediaCache
    = (UsageData u, mediaCache') ->
  exists cached,
    mediaCache' !! cacheKey org repo path = Some cached
    /\ u = lookupUsage cached mediaUrl mediaName.
Proof.
  unfold findMediaUsage.
  destruct (getMediaIndex env org repo path mediaCache)
    as [[data total t c|e] st] eqn:G; [|discriminate].
  destruct (st !! cacheKey org repo path) as [cached|] eqn:L; [|discriminate].
  intros [= <- <-]. eauto.
Qed.

End UsageFacts.

(** ** The site cache: claims *)

(** C6. When the cache has no entry for the site and the request to the
    remote document fails, [getMediaIndex] still returns: the result is the
    structured error object, with [error], [initUrl] and the [debug] block
    carrying the message of the failure, and the cache is left as it was,
    so the site still has no entry. *)
Theorem getMediaIndex_fetch_failure
    (env : Env) (org repo : string) (path : option string)
    (mediaCache : gmap string CacheEntry) (message : string) :
  mediaCache !! cacheKey org repo path = None ->
  daAdminRequest env (buildMediaUrl env org repo path) = Rejects message ->
  exists e,
    getMediaIndex env org repo path mediaCache = (IndexError e, mediaCache)
    /\ error e = "Media index not found"
    /\ initUrl e = initUrl (buildErrorResponse env org repo path message)
    /\ debug e = {| debug_org := org;
                    debug_repo := repo;
                    debug_path := path;
                    debug_url := buildMediaUrl env org repo path;
                    debug_error := message |}
    /\ snd (getMediaIndex env org repo path mediaCache)
         !! cacheKey org repo path = None.
Proof.
  intros Hmiss Hrej. exists (buildErrorResponse env org repo path message).
  rewrite (getMediaIndex_miss_rejects env org repo path _ _ Hmiss Hrej).
  simpl. auto.
Qed.

Lemma getMediaIndex_fetch_failure_witness :
  exists e,
    getMediaIndex offlineEnv "acme" "site" (Some "/docs") ∅ = (IndexError e, ∅)
    /\ error e = "Media index not found"
    /\ initUrl e
       = "https://main--da-live--adobe.aem.live/apps/media-library?nx=media#acme/site/docs"
    /\ debug_error (debug e) = "404 Not Found".
Proof.
  destruct (getMediaIndex_fetch_failure offlineEnv "acme" "site" (Some "/docs")
              ∅ "404 Not Found") as (e & H1 & H2 & H3 & H4 & _).
  - reflexivity.
  - reflexivity.
  - exists e. rewrite H4. repeat split; [exact H1|exact H2|exact H3].
Defined.

(** C4, as the code has it.  A [getMediaIndex] that finds a cache entry
    returns [cached: true] with the [uniqueItems] of that entry and leaves
    the cache alone.  [refreshMediaCache] drops the entry and fetches
    again: when the fetch succeeds it returns [cached: false] with the
    freshly built catalogue, and the next plain [getMediaIndex] for the
    site, whatever the remote then answers, returns [cached: true] with the
    same [data]; when the fetch fails it returns the error object and the
    site is left without an entry. *)
Theorem cache_correctness
    (env env' : Env) (org repo : string) (path : option string)
    (mediaCache : gmap string CacheEntry) :
  (forall cached,
     mediaCache !! cacheKey org repo path = Some cached ->
     getMediaIndex env org repo path mediaCache
     = (IndexData (uniqueItems (structures cached))
                  (length (uniqueItems (structures cached)))
                  (fetchedAt cached) true,
        mediaCache))
  /\ (forall body,
        daAdminRequest env (buildMediaUrl env org repo path) = Resolves body ->
        exists data mediaCache',
          refreshMediaCache env org repo path mediaCache
          = (IndexData data (length data) (now env) false, mediaCache')
          /\ data = uniqueItems (buildMediaStructures (mediaDataOf body))
          /\ getMediaIndex env' org repo path mediaCache'
             = (IndexData data (length data) (now env) true, mediaCache'))
  /\ (forall message,
        daAdminRequest env (buildMediaUrl env org repo path) = Rejects message ->
        refreshMediaCache env org repo path mediaCache
        = (IndexError (buildErrorResponse env org repo path message),
           delete (cacheKey org repo path) mediaCache)
        /\ delete (cacheKey org repo path) mediaCache
             !! cacheKey org repo path = None).
Proof.
  split; [|split].
  - intros cached Hhit. now apply getMediaIndex_hit.
  - intros body Hres. unfold refreshMediaCache.
    rewrite (getMediaIndex_miss_resolves env org repo path _ body)
      by (apply lookup_delete_eq || exact Hres).
    eexists _, _. split; [reflexivity|]. split; [reflexivity|].
    erewrite getMediaIndex_hit by apply lookup_insert_eq. reflexivity.
  - intros message Hrej. unfold refreshMediaCache.
    rewrite (getMediaIndex_miss_rejects env org repo path _ message)
      by (apply lookup_delete_eq || exact Hrej).
    split; [reflexivity|apply lookup_delete_eq].
Qed.

Lemma cache_correctness_witness :
  exists data mediaCache',
    refreshMediaCache sampleEnv "acme" "site" None sampleCache
    = (IndexData data (length data) (now sampleEnv) false, mediaCache')
    /\ data = uniqueItems (buildMediaStructures (mediaDataOf (Sheet sampleRaw)))
    /\ getMediaIndex offlineEnv "acme" "site" None mediaCache'
       = (IndexData data (length data) (now sampleEnv) true, mediaCache').
Proof.
  apply (cache_correctness sampleEnv offlineEnv "acme" "site" None sampleCache).
  reflexivity.
Defined.

(** C4 as stated fails when the remote document is gone at the time of
    the refresh: [refreshMediaCache] then returns no [cached: false]
    result, it returns the error object. *)
Lemma refreshMediaCache_offline :
  ~ exists data total fetched mediaCache',
      refreshMediaCache offlineEnv "acme" "site" None sampleCache
      = (IndexData data total fetched false, mediaCache').
Proof.
  intros (data & total & fetched & mediaCache' & H).
  unfold refreshMediaCache in H.
  rewrite (getMediaIndex_miss_rejects offlineEnv "acme" "site" None _
             "404 Not Found") in H;
    [discriminate|apply lookup_delete_eq|reflexivity].
Qed.

(** ** Usage lookup: claims *)

(** C7. For a site whose index is in the cache once [getMediaIndex] has
    run (it was there, or has just been built), a lookup that resolves no
    canonical key returns exactly the not-found object
    [{mediaItem: null, usageCount: 0, documents: [], allUsages: []}]: when
    the key of the given [mediaUrl] is not in the usage index, when no
    [mediaUrl] is given and no key of the usage index contains the
    lower-cased [mediaName], and when neither is given. *)
Theorem findMediaUsage_not_found
    (env : Env) (org repo : string) (path mediaUrl mediaName : option string)
    (mediaCache : gmap string CacheEntry) (cached : CacheEntry) :
  snd (getMediaIndex env org repo path mediaCache) !! cacheKey org repo path
    = Some cached ->
  (JS.truthy mediaUrl = true
   /\ JSMap.get (getGroupingKey mediaUrl) (usageIndex (structures cached)) = None)
  \/ (JS.truthy mediaUrl = false
      /\ JS.truthy mediaName = true
      /\ forall k, In k (JSMap.keys (usageIndex (structures cached))) ->
           JS.includes k (JS.toLowerCase (default EmptyString mediaName)) = false)
  \/ (JS.truthy mediaUrl = false /\ JS.truthy mediaName = false) ->
  findMediaUsage env org repo path mediaUrl mediaName mediaCache
  = (UsageData {| mediaItem := ItemNull;
                  usage_usageCount := 0;
                  documents := [];
                  allUsages := [] |},
     snd (getMediaIndex env org repo path mediaCache)).
Proof.
  intros Hentry Hunresolved. unfold findMediaUsage.
  destruct (getMediaIndex env org repo path mediaCache)
    as [[data total t c|e] st] eqn:G; simpl in Hentry |- *.
  - rewrite Hentry. f_equal. f_equal. change (lookupUsage cached mediaUrl mediaName = notFound).
    unfold lookupUsage, resolveKey.
    destruct Hunresolved as [[Hu Hget]|[(Hu & Hn & Hnone)|[Hu Hn]]]; rewrite Hu.
    + destruct (getGroupingKey mediaUrl) as [|ch key]; [reflexivity|].
      simpl. now rewrite Hget.
    + destruct mediaName as [n|]; [|discriminate]. rewrite Hn.
      simpl in Hnone. now rewrite (find_all_false _ _ Hnone).
    + destruct mediaName as [n|]; [|reflexivity]. now rewrite Hn.
  - apply getMediaIndex_error_unchanged in G as [-> Hmiss]. congruence.
Qed.

Lemma findMediaUsage_not_found_witness :
  findMediaUsage sampleEnv "acme" "site" None None (Some "Zebra") sampleCache
  = (UsageData {| mediaItem := ItemNull;
                  usage_usageCount := 0;
                  documents := [];
                  allUsages := [] |},
     snd (getMediaIndex sampleEnv "acme" "site" None sampleCache)).
Proof.
  apply (findMediaUsage_not_found sampleEnv "acme" "site" None None
           (Some "Zebra") sampleCache
           {| structures := buildMediaStructures sampleRaw;
              fetchedAt := 1690000000000%Z |}).
  - reflexivity.
  - right. left. split; [reflexivity|]. split; [reflexivity|].
    intros k Hk. vm_compute in Hk.
    destruct Hk as [<-|[<-|[]]]; reflexivity.
Defined.

(** C8, as the code has it.  [findMediaUsage] starts with
    [getMediaIndex], so for a site without a cache entry it fetches and
    builds first: when the fetch fails the answer is the error object of
    [getMediaIndex] ([error: "Media index not found"]) and the cache is
    unchanged; when it succeeds the answer is the lookup in the index just
    built and cached.  Run on its own, on any cache, the operation never
    answers [{error: "Media data not loaded"}]. *)
Theorem findMediaUsage_unbuilt
    (env : Env) (org repo : string) (path mediaUrl mediaName : option string)
    (mediaCache : gmap string CacheEntry) :
  mediaCache !! cacheKey org repo path = None ->
  match daAdminRequest env (buildMediaUrl env org repo path) with
  | Rejects message =>
      findMediaUsage env org repo path mediaUrl mediaName mediaCache
      = (UsageError (buildErrorResponse env org repo path message), mediaCache)
  | Resolves body =>
      findMediaUsage env org repo path mediaUrl mediaName mediaCache
      = (UsageData
           (lookupUsage
              {| structures := buildMediaStructures (mediaDataOf body);
                 fetchedAt := now env |} mediaUrl mediaName),
         <[cacheKey org repo path :=
             {| structures := buildMediaStructures (mediaDataOf body);
                fetchedAt := now env |}]> mediaCache)
  end
  /\ forall (anyCache : gmap string CacheEntry) (message : string),
       fst (findMediaUsage env org repo path mediaUrl mediaName anyCache)
       <> UsageNotLoaded message.
Proof.
  intros Hmiss. split; [|intros; apply findMediaUsage_loaded].
  unfold findMediaUsage.
  destruct (daAdminRequest env (buildMediaUrl env org repo path))
    as [message|body] eqn:R.
  - now rewrite (getMediaIndex_miss_rejects env org repo path _ _ Hmiss R).
  - rewrite (getMediaIndex_miss_resolves env org repo path _ _ Hmiss R).
    now rewrite lookup_insert_eq.
Qed.

Lemma findMediaUsage_unbuilt_witness :
  findMediaUsage offlineEnv "acme" "site" None (Some "a.png") None ∅
  = (UsageError (buildErrorResponse offlineEnv "acme" "site" None "404 Not Found"),
     ∅).
Proof.
  apply (findMediaUsage_unbuilt offlineEnv "acme" "site" None (Some "a.png")
           None ∅).
  reflexivity.
Defined.

(** C8 as stated fails: before any index build for the site, the lookup
    answers from the index it builds itself when the remote document is
    there, and with the error object of [getMediaIndex] when it is not;
    neither is [{error: "Media data not loaded"}]. *)
Lemma findMediaUsage_unbuilt_counterexample :
  fst (findMediaUsage sampleEnv "acme" "site" None (Some "a.png") None ∅)
    <> UsageNotLoaded "Media data not loaded"
  /\ fst (findMediaUsage offlineEnv "acme" "site" None (Some "a.png") None ∅)
    <> UsageNotLoaded "Media data not loaded".
Proof. split; vm_compute; discriminate. Qed.

(** C10. In every result object of a usage lookup, [documents] lists the
    distinct [doc] values of [allUsages] that are present and not empty,
    each once, in the order of their first occurrence; usages with an
    empty or absent [doc] add nothing to [documents] but stay in
    [allUsages] and count in [usageCount].  Unless the result is the
    not-found object, [allUsages] is the usage-index sequence of the
    resolved canonical key. *)
Theorem findMediaUsage_documents
    (env : Env) (org repo : string) (path mediaUrl mediaName : option string)
    (mediaCache mediaCache' : gmap string CacheEntry) (u : Usage) :
  findMediaUsage env org repo path mediaUrl mediaName mediaCache
    = (UsageData u, mediaCache') ->
  documents u = firstOccurrences (nonEmptyDocs (allUsages u))
  /\ NoDup (documents u)
  /\ (forall d, In d (documents u) <->
        d <> EmptyString
        /\ exists us, In us (allUsages u) /\ usage_doc us = Some d)
  /\ usage_usageCount u = length (allUsages u)
  /\ (u = notFound
      \/ exists cached key,
           mediaCache' !! cacheKey org repo path = Some cached
           /\ resolveKey (usageIndex (structures cached)) mediaUrl mediaName
              = Some key
           /\ JSMap.get key (usageIndex (structures cached))
              = Some (allUsages u)).
Proof.
  intros (cached & Hentry & ->)%findMediaUsage_data.
  assert (Hdocs : documents (lookupUsage cached mediaUrl mediaName)
                  = docsOf (allUsages (lookupUsage cached mediaUrl mediaName))
                  /\ usage_usageCount (lookupUsage cached mediaUrl mediaName)
                     = length (allUsages (lookupUsage cached mediaUrl mediaName))).
  { destruct (lookupUsage_cases cached mediaUrl mediaName)
      as [->|(key & usages & _ & _ & _ & ->)]; split; reflexivity. }
  destruct Hdocs as [Hdocs Hcount].
  split; [rewrite Hdocs; apply docsOf_firstOccurrences|].
  split; [rewrite Hdocs; apply NoDup_of_list|].
  split; [|split; [exact Hcount|]].
  - intros d. rewrite Hdocs. unfold docsOf.
    rewrite <- list_elem_of_In, elem_of_of_list, list_elem_of_In.
    rewrite truthy_docs_nonEmptyDocs. apply In_nonEmptyDocs.
  - destruct (lookupUsage_cases cached mediaUrl mediaName)
      as [->|(key & usages & Hkey & _ & Hget & ->)]; [now left|].
    right. exists cached, key. auto.
Qed.

Lemma findMediaUsage_documents_witness :
  documents
    (lookupUsage {| structures := buildMediaStructures sampleRaw;
                    fetchedAt := 1690000000000%Z |} None (Some "B.PNG"))
  = []
  /\ usage_usageCount
       (lookupUsage {| structures := buildMediaStructures sampleRaw;
                       fetchedAt := 1690000000000%Z |} None (Some "B.PNG"))
     = 1.
Proof.
  destruct (findMediaUsage_documents sampleEnv "acme" "site" None None
              (Some "B.PNG") sampleCache sampleCache
              (lookupUsage {| structures := buildMediaStructures sampleRaw;
                              fetchedAt := 1690000000000%Z |}
                 None (Some "B.PNG")))
    as (H1 & _ & _ & H2 & _).
  - reflexivity.
  - split; [rewrite H1|rewrite H2]; reflexivity.
Defined.

(** ** Statistics: claims *)

(** C2, as the code has it.  Whenever [getMediaStats] returns statistics,
    the site has a cache entry and [totalReferences] is the number of all
    raw records of that entry ([rawData.length]); records with an empty or
    absent [url] are counted like the others, so the total is the number of
    indexed records plus the number of records without a location
    identifier.  [altText.filled], [altText.decorative] and
    [altText.notFilled] add up to [totalReferences].  When no raw record
    has a type name under which a plain object inherits a member
    ([__proto__], [constructor], [toString], ...), every [byType] value is
    a number and the values add up to [totalReferences].  When the entry
    was built by this very call, the raw records are the rows the remote
    returned. *)
Theorem getMediaStats_totals
    (env : Env) (org repo : string) (path : option string)
    (mediaCache mediaCache' : gmap string CacheEntry) (s : Stats) :
  getMediaStats env org repo path mediaCache = (StatsData s, mediaCache') ->
  exists cached,
    mediaCache' !! cacheKey org repo path = Some cached
    /\ totalReferences s = length (rawData (structures cached))
    /\ totalReferences s
       = length (List.filter hasUrl (rawData (structures cached)))
         + length (List.filter (fun r => negb (hasUrl r))
                     (rawData (structures cached)))
    /\ (forallb plainRecord (rawData (structures cached)) = true ->
        allNumbers (byType s) /\ sumValues (byType s) = totalReferences s)
    /\ altTotal (altText s) = totalReferences s
    /\ (mediaCache !! cacheKey org repo path = None ->
        exists body,
          daAdminRequest env (buildMediaUrl env org repo path) = Resolves body
          /\ rawData (structures cached) = mediaDataOf body).
Proof.
  unfold getMediaStats.
  destruct (getMediaIndex env org repo path mediaCache)
    as [[data total t c|e] st] eqn:G; [|discriminate].
  apply getMediaIndex_data_cached in G as (cached & Hentry & _ & Hhit & Hmiss).
  rewrite Hentry.
  pose proof (stats_loop_counts (rawData (structures cached))) as [Halt Hsum].
  destruct (stats_loop (rawData (structures cached))) as [[tc un] a].
  intros [= <- <-]. exists cached. simpl in *.
  split; [exact Hentry|]. split; [reflexivity|].
  split; [apply length_filter_split|]. split; [exact Hsum|].
  split; [exact Halt|].
  intros Hnone. destruct c.
  - destruct (Hhit eq_refl) as [_ Hsome]. congruence.
  - destruct (Hmiss eq_refl) as (_ & body & Hres & -> & _).
    exists body. split; [exact Hres|].
    simpl. now destruct (buildMediaStructures_fields (mediaDataOf body))
      as (_ & _ & ->).
Qed.

Lemma getMediaStats_totals_witness :
  exists cached,
    snd (getMediaStats sampleEnv "acme" "site" None ∅)
      !! cacheKey "acme" "site" None = Some cached
    /\ 3 = length (rawData (structures cached))
    /\ sumValues {["img > png" := Num 3]} = 3.
Proof.
  destruct (getMediaStats_totals sampleEnv "acme" "site" None ∅
              (snd (getMediaStats sampleEnv "acme" "site" None ∅))
              {| stats_uniqueItems := 2;
                 totalReferences := 3;
                 byType := {["img > png" := Num 3]};
                 unused := 1;
                 altText := {| filled := 1; decorative := 1; notFilled := 1 |} |})
    as (cached & H1 & H2 & _ & H3 & _).
  - vm_compute. reflexivity.
  - pose proof H1 as Hc. vm_compute in Hc. injection Hc as Hc.
    destruct H3 as [_ H3].
    + rewrite <- Hc. vm_compute. reflexivity.
    + exists cached. split; [exact H1|]. split; [exact H2|exact H3].
Defined.

(** C2 as stated fails on the total: a row without a location identifier
    is left out of the index but is counted in [totalReferences]. *)
Lemma getMediaStats_counts_blank_rows :
  exists s mediaCache',
    getMediaStats blankEnv "acme" "site" None ∅ = (StatsData s, mediaCache')
    /\ totalReferences s = 1
    /\ length (List.filter hasUrl blankRows) = 0
    /\ totalReferences s <> length (List.filter hasUrl blankRows).
Proof.
  eexists _, _. split; [reflexivity|]. simpl. repeat split. discriminate.
Qed.

(** On rows whose type names are members of [Object.prototype] the
    [byType] object is no table of counts: two rows of type [constructor]
    leave a text, a row of type [__proto__] leaves nothing, and only the
    row without a type is counted. *)
Example getMediaStats_inherited_type_names :
  exists s mediaCache',
    getMediaStats clashEnv "acme" "site" None ∅ = (StatsData s, mediaCache')
    /\ totalReferences s = 4
    /\ byType s
       = {["constructor" := Str "function Object() { [native code] }11";
           "unknown" := Num 1]}
    /\ sumValues (byType s) = 1.
Proof.
  eexists _, _. split; [reflexivity|]. vm_compute. repeat split.
Qed.

(** * Further properties of the code *)

(** ** Key normalizer *)

Section KeyShape.

Lemma lower_ascii_idem (c : ascii) :
  JS.lower_ascii (JS.lower_ascii c) = JS.lower_ascii c.
Proof. destruct c as [[] [] [] [] [] [] [] []]; reflexivity. Qed.

Lemma lower_ascii_question (c : ascii) :
  Ascii.eqb (JS.lower_ascii c) "?"%char = Ascii.eqb c "?"%char.
Proof. destruct c as [[] [] [] [] [] [] [] []]; reflexivity. Qed.

Lemma toLowerCase_idem (s : string) :
  JS.toLowerCase (JS.toLowerCase s) = JS.toLowerCase s.
Proof.
  induction s as [|c s IH]; simpl; [reflexivity|].
  now rewrite lower_ascii_idem, IH.
Qed.

Lemma mem_char_toLowerCase (s : string) :
  JS.mem_char "?"%char (JS.toLowerCase s) = JS.mem_char "?"%char s.
Proof.
  induction s as [|c s IH]; simpl; [reflexivity|].
  now rewrite lower_ascii_question, IH.
Qed.

Lemma split_head_clean (s : string) :
  JS.mem_char "?"%char (hd EmptyString (JS.split "?"%char s)) = false.
Proof.
  induction s as [|c s IH]; simpl; [reflexivity|].
  destruct (Ascii.eqb c "?"%char) eqn:E; [reflexivity|].
  destruct (JS.split "?"%char s) as [|h t]; simpl in *; now rewrite E.
Qed.

Lemma getGroupingKey_clean (url : option string) :
  JS.mem_char "?"%char (getGroupingKey url) = false.
Proof.
  destruct url as [[|c u]|]; try reflexivity.
  rewrite getGroupingKey_nonempty, mem_char_toLowerCase.
  apply split_head_clean.
Qed.

Lemma getGroupingKey_lower (url : option string) :
  JS.toLowerCase (getGroupingKey url) = getGroupingKey url.
Proof.
  destruct url as [[|c u]|]; try reflexivity.
  rewrite getGroupingKey_nonempty. apply toLowerCase_idem.
Qed.

End KeyShape.

(** X1. A canonical key is a fixed point of the normalizer: it holds no
    ['?'], lower-casing leaves it as it is, and normalizing it again gives
    the same key. *)
Theorem getGroupingKey_idempotent (url : option string) :
  JS.mem_char "?"%char (getGroupingKey url) = false
  /\ JS.toLowerCase (getGroupingKey url) = getGroupingKey url
  /\ getGroupingKey (Some (getGroupingKey url)) = getGroupingKey url.
Proof.
  split; [apply getGroupingKey_clean|]. split; [apply getGroupingKey_lower|].
  pose proof (getGroupingKey_clean url) as Hclean.
  pose proof (getGroupingKey_lower url) as Hlow.
  destruct (getGroupingKey url) as [|c k] eqn:E; [reflexivity|].
  rewrite getGroupingKey_nonempty, split_no_sep by exact Hclean.
  exact Hlow.
Qed.

(** ** Index builder *)

Section BuilderShape.

Implicit Types (raw : list RawRecord) (r : RawRecord) (k : string).

Lemma map_key_values {V : Type} (f : V -> string) (m : JSMap.t V) :
  (forall k v, In (k, v) m -> f v = k) ->
  map f (JSMap.values m) = JSMap.keys m.
Proof.
  induction m as [|[k v] m IH]; simpl; [reflexivity|]. intros H.
  rewrite (H k v) by now left. f_equal. apply IH.
  intros k' v' Hin. apply H. now right.
Qed.

Lemma build_maps_NoDup raw :
  NoDup (JSMap.keys (fst (build_maps raw)))
  /\ NoDup (JSMap.keys (snd (build_maps raw))).
Proof.
  destruct (build_maps_keys raw) as [-> ->]. split; apply NoDup_of_list.
Qed.

Lemma build_maps_entryKey raw k (e : CatalogueEntry) :
  In (k, e) (fst (build_maps raw)) -> entryKey e = k.
Proof.
  intros Hin. apply In_get_Some in Hin; [|apply build_maps_NoDup].
  now destruct (entry_shape raw k e Hin) as (_ & _ & _ & Hk).
Qed.

Lemma sum_values_set {V : Type} (f : V -> nat) (m : JSMap.t V) k (v : V) :
  list_sum (map f (JSMap.values (JSMap.set k v m)))
    + match JSMap.get k m with Some o => f o | None => 0 end
  = list_sum (map f (JSMap.values m)) + f v.
Proof.
  unfold JSMap.values.
  induction m as [|[k0 v0] m IH]; simpl; [lia|].
  destruct (String.eqb k k0); simpl; lia.
Qed.

Lemma find_In_Some {A : Type} (f : A -> bool) (l : list A) (a : A) :
  In a l -> f a = true -> exists x, find f l = Some x.
Proof.
  induction l as [|y l IH]; simpl; [tauto|].
  intros [->|Hin] Hf.
  - rewrite Hf. eauto.
  - destruct (f y); eauto.
Qed.

Lemma build_maps_sums raw :
  list_sum (map usageCount (JSMap.values (fst (build_maps raw))))
    = length (List.filter hasUrl raw)
  /\ list_sum (map (@length UsageDetail) (JSMap.values (snd (build_maps raw))))
    = length (List.filter hasUrl raw).
Proof.
  induction raw as [|r raw [IH1 IH2]] using rev_ind; [split; reflexivity|].
  rewrite build_maps_snoc, List.filter_app, length_app.
  destruct (build_maps raw) as [m ix]. simpl in IH1, IH2. simpl List.filter.
  destruct (hasUrl r) eqn:Hr.
  - rewrite build_step_keep by exact Hr. simpl fst. simpl snd. split.
    + pose proof (sum_values_set usageCount m (getGroupingKey (url r))
                    match JSMap.get (getGroupingKey (url r)) m with
                    | Some e => {| item := item e; usageCount := usageCount e + 1 |}
                    | None => {| item := r; usageCount := 0 + 1 |}
                    end) as Hs.
      destruct (JSMap.get (getGroupingKey (url r)) m); simpl in *; lia.
    + pose proof (sum_values_set (@length UsageDetail) ix
                    (getGroupingKey (url r))
                    (default [] (JSMap.get (getGroupingKey (url r)) ix)
                       ++ [usageDetail r])) as Hs.
      rewrite length_app in Hs.
      destruct (JSMap.get (getGroupingKey (url r)) ix); simpl in *; lia.
  - rewrite build_step_skip by exact Hr. simpl. lia.
Qed.

End BuilderShape.

(** X2. The catalogue and the usage index hold the same canonical keys in
    the same order, the order in which the keys first appear in the raw
    records. *)
Theorem buildMediaStructures_order (raw : list RawRecord) :
  map entryKey (uniqueItems (buildMediaStructures raw))
    = firstOccurrences (keysOf raw)
  /\ JSMap.keys (usageIndex (buildMediaStructures raw))
    = firstOccurrences (keysOf raw).
Proof.
  destruct (buildMediaStructures_fields raw) as (-> & -> & _).
  destruct (build_maps_keys raw) as [H1 H2].
  rewrite (map_key_values entryKey) by apply build_maps_entryKey.
  now rewrite H1, H2, of_list_firstOccurrences.
Qed.

(** X3. Nothing is lost or counted twice by the builder: the usage counts
    of the catalogue add up to the number of raw records that have a
    location identifier, and so do the lengths of the usage sequences. *)
Theorem buildMediaStructures_conservation (raw : list RawRecord) :
  sumUsageCounts (uniqueItems (buildMediaStructures raw))
    = countIf hasUrl raw
  /\ totalUsages (usageIndex (buildMediaStructures raw))
    = countIf hasUrl raw.
Proof.
  destruct (buildMediaStructures_fields raw) as (-> & -> & _).
  apply build_maps_sums.
Qed.

(** X4. Every raw record with a location identifier is represented: the
    catalogue has an entry for its canonical key, and its usage detail is
    in the usage sequence stored under that key. *)
Theorem buildMediaStructures_complete (raw : list RawRecord) (r : RawRecord) :
  In r raw ->
  hasUrl r = true ->
  (exists e,
     In e (uniqueItems (buildMediaStructures raw))
     /\ entryKey e = getGroupingKey (url r))
  /\ exists usages,
       JSMap.get (getGroupingKey (url r)) (usageIndex (buildMediaStructures raw))
         = Some usages
       /\ In (usageDetail r) usages.
Proof.
  intros Hin Hr.
  destruct (find_In_Some (carries (getGroupingKey (url r))) raw r Hin
              (carries_own_key r Hr)) as [r0 F].
  split.
  - pose proof (build_maps_entry raw (getGroupingKey (url r))) as Hget.
    rewrite F in Hget. eexists. split; [eapply get_uniqueItems; exact Hget|].
    now destruct (entry_shape raw _ _ Hget) as (_ & _ & _ & Hk).
  - destruct (buildMediaStructures_fields raw) as (_ & -> & _).
    rewrite build_maps_usages, F. eexists. split; [reflexivity|].
    apply in_map. apply filter_In. split; [exact Hin|].
    now apply carries_own_key.
Qed.

Lemma buildMediaStructures_complete_witness :
  exists usages,
    JSMap.get "a.png" (usageIndex (buildMediaStructures sampleRaw)) = Some usages
    /\ In (usageDetail (mkRecord (Some "a.png") (Some "p2") (Some "cat"))) usages.
Proof.
  apply (buildMediaStructures_complete sampleRaw
           (mkRecord (Some "a.png") (Some "p2") (Some "cat"))).
  - vm_compute. right. left. reflexivity.
  - reflexivity.
Defined.

(** ** Site cache *)

Section CacheShape.

Variables (env : Env) (org repo : string) (path : option string).
Implicit Types (mediaCache : gmap string CacheEntry).

Lemma append_inj_l (s a b : string) : s +:+ a = s +:+ b -> a = b.
Proof.
  induction s as [|c s IH]; simpl; [auto|]. intros [= H]. auto.
Qed.

Lemma getMediaIndex_other_key mediaCache (key' : string) :
  key' <> cacheKey org repo path ->
  snd (getMediaIndex env org repo path mediaCache) !! key' = mediaCache !! key'.
Proof.
  intros Hne. unfold getMediaIndex.
  destruct (mediaCache !! cacheKey org repo path); [reflexivity|].
  destruct (daAdminRequest env (buildMediaUrl env org repo path));
    [reflexivity|].
  simpl. apply lookup_insert_ne. congruence.
Qed.

Lemma searchMedia_cache (filters : Filters) mediaCache :
  snd (searchMedia env org repo path filters mediaCache)
  = snd (getMediaIndex env org repo path mediaCache).
Proof.
  unfold searchMedia.
  now destruct (getMediaIndex env org repo path mediaCache) as [[] ?].
Qed.

Lemma getMediaStats_cache mediaCache :
  snd (getMediaStats env org repo path mediaCache)
  = snd (getMediaIndex env org repo path mediaCache).
Proof.
  unfold getMediaStats.
  destruct (getMediaIndex env org repo path mediaCache)
    as [[data total t c|e] st]; [|reflexivity].
  now destruct (stats_loop _) as [[? ?] ?].
Qed.

Lemma findMediaUsage_cache (mediaUrl mediaName : option string) mediaCache :
  snd (findMediaUsage env org repo path mediaUrl mediaName mediaCache)
  = snd (getMediaIndex env org repo path mediaCache).
Proof.
  unfold findMediaUsage.
  destruct (getMediaIndex env org repo path mediaCache)
    as [[data total t c|e] st]; [|reflexivity].
  now destruct (st !! cacheKey org repo path).
Qed.

End CacheShape.

(** X5. A sub-path written with or without its leading slash names the
    same remote document, but not the same cache entry: the two spellings
    give one request URL and two different cache keys, so an index cached
    under one spelling is fetched again under the other. *)
Theorem leading_slash_splits_cache
    (env : Env) (org repo : string) (c : ascii) (p : string)
    (mediaCache : gmap string CacheEntry) (body : Payload) :
  c <> "/"%char ->
  mediaCache !! cacheKey org repo (Some ("/" +:+ String c p)) = None ->
  daAdminRequest env (buildMediaUrl env org repo (Some (String c p)))
    = Resolves body ->
  buildMediaUrl env org repo (Some ("/" +:+ String c p))
    = buildMediaUrl env org repo (Some (String c p))
  /\ cacheKey org repo (Some ("/" +:+ String c p))
     <> cacheKey org repo (Some (String c p))
  /\ fst (getMediaIndex env org repo (Some ("/" +:+ String c p))
            (snd (getMediaIndex env org repo (Some (String c p)) mediaCache)))
     = IndexData (uniqueItems (buildMediaStructures (mediaDataOf body)))
         (length (uniqueItems (buildMediaStructures (mediaDataOf body))))
         (now env) false.
Proof.
  intros Hc Hmiss Hres.
  assert (Hurl : buildMediaUrl env org repo (Some ("/" +:+ String c p))
                 = buildMediaUrl env org repo (Some (String c p))).
  { unfold buildMediaUrl, buildMediaPath. simpl.
    destruct (Ascii.eqb_spec c "/"%char); [contradiction|reflexivity]. }
  assert (Hkey : cacheKey org repo (Some ("/" +:+ String c p))
                 <> cacheKey org repo (Some (String c p))).
  { unfold cacheKey. simpl. intros H.
    do 4 apply append_inj_l in H. injection H as H _.
    apply Hc. symmetry. exact H. }
  split; [exact Hurl|]. split; [exact Hkey|].
  rewrite (getMediaIndex_miss_resolves env org repo _ _ body).
  - reflexivity.
  - rewrite getMediaIndex_other_key by exact Hkey. exact Hmiss.
  - rewrite Hurl. exact Hres.
Qed.

Lemma leading_slash_splits_cache_witness :
  cacheKey "acme" "site" (Some "/docs") <> cacheKey "acme" "site" (Some "docs")
  /\ buildMediaUrl sampleEnv "acme" "site" (Some "/docs")
     = buildMediaUrl sampleEnv "acme" "site" (Some "docs").
Proof.
  destruct (leading_slash_splits_cache sampleEnv "acme" "site" "d"%char "ocs"
              ∅ (Sheet sampleRaw)) as (H1 & H2 & _).
  - discriminate.
  - reflexivity.
  - reflexivity.
  - split; [exact H2|exact H1].
Defined.

(** X6. Every operation touches the cache entry of its own site only: the
    entry stored under any other key is the same before and after
    [getMediaIndex], [refreshMediaCache], [searchMedia], [getMediaStats]
    and [findMediaUsage]. *)
Theorem cache_isolation
    (env : Env) (org repo : string) (path mediaUrl mediaName : option string)
    (filters : Filters) (mediaCache : gmap string CacheEntry) (key' : string) :
  key' <> cacheKey org repo path ->
  snd (getMediaIndex env org repo path mediaCache) !! key' = mediaCache !! key'
  /\ snd (refreshMediaCache env org repo path mediaCache) !! key'
     = mediaCache !! key'
  /\ snd (searchMedia env org repo path filters mediaCache) !! key'
     = mediaCache !! key'
  /\ snd (getMediaStats env org repo path mediaCache) !! key'
     = mediaCache !! key'
  /\ snd (findMediaUsage env org repo path mediaUrl mediaName mediaCache) !! key'
     = mediaCache !! key'.
Proof.
  intros Hne.
  rewrite searchMedia_cache, getMediaStats_cache, findMediaUsage_cache.
  unfold refreshMediaCache.
  rewrite !getMediaIndex_other_key by exact Hne.
  rewrite lookup_delete_ne by congruence. auto.
Qed.

Lemma cache_isolation_witness :
  snd (refreshMediaCache offlineEnv "acme" "blog" None sampleCache)
    !! cacheKey "acme" "site" None
  = sampleCache !! cacheKey "acme" "site" None.
Proof.
  apply (cache_isolation offlineEnv "acme" "blog" None None None noFilters
           sampleCache (cacheKey "acme" "site" None)).
  discriminate.
Defined.

(** X7. Once [getMediaIndex] has returned data for a site, asking again
    gives the same [data], [total] and [fetchedAt] with [cached: true] and
    leaves the cache as it is, whatever the remote would answer by then. *)
Theorem getMediaIndex_twice
    (env env' : Env) (org repo : string) (path : option string)
    (mediaCache mediaCache' : gmap string CacheEntry)
    (data : list CatalogueEntry) (total : nat) (fetched : Z) (c : bool) :
  getMediaIndex env org repo path mediaCache
    = (IndexData data total fetched c, mediaCache') ->
  getMediaIndex env' org repo path mediaCache'
    = (IndexData data total fetched true, mediaCache').
Proof.
  unfold getMediaIndex at 1.
  destruct (mediaCache !! cacheKey org repo path) as [cached|] eqn:E.
  - intros [= <- <- <- <- <-]. now apply getMediaIndex_hit.
  - destruct (daAdminRequest env (buildMediaUrl env org repo path));
      [discriminate|].
    intros [= <- <- <- <- <-].
    erewrite getMediaIndex_hit by apply lookup_insert_eq. reflexivity.
Qed.

Lemma getMediaIndex_twice_witness :
  getMediaIndex offlineEnv "acme" "site" None
    (snd (getMediaIndex sampleEnv "acme" "site" None ∅))
  = (IndexData (uniqueItems (buildMediaStructures sampleRaw)) 2
       1700000000000%Z true,
     snd (getMediaIndex sampleEnv "acme" "site" None ∅)).
Proof.
  apply (getMediaIndex_twice sampleEnv offlineEnv "acme" "site" None ∅ _ _ _ _
           false).
  vm_compute. reflexivity.
Defined.

(** X8. A failed fetch is not remembered: after [getMediaIndex] has
    returned the error object, the next call requests the document again,
    and once the remote answers it builds and caches the index and returns
    [cached: false]. *)
Theorem getMediaIndex_retry_after_failure
    (env env' : Env) (org repo : string) (path : option string)
    (mediaCache mediaCache' : gmap string CacheEntry)
    (e : ErrorResponse) (body : Payload) :
  getMediaIndex env org repo path mediaCache = (IndexError e, mediaCache') ->
  daAdminRequest env' (buildMediaUrl env' org repo path) = Resolves body ->
  getMediaIndex env' org repo path mediaCache'
  = (IndexData (uniqueItems (buildMediaStructures (mediaDataOf body)))
       (length (uniqueItems (buildMediaStructures (mediaDataOf body))))
       (now env') false,
     <[cacheKey org repo path :=
         {| structures := buildMediaStructures (mediaDataOf body);
            fetchedAt := now env' |}]> mediaCache).
Proof.
  intros [-> Hmiss]%getMediaIndex_error_unchanged Hres.
  now apply getMediaIndex_miss_resolves.
Qed.

Lemma getMediaIndex_retry_after_failure_witness :
  fst (getMediaIndex sampleEnv "acme" "site" None
         (snd (getMediaIndex offlineEnv "acme" "site" None ∅)))
  = IndexData (uniqueItems (buildMediaStructures sampleRaw)) 2
      1700000000000%Z false.
Proof.
  rewrite (getMediaIndex_retry_after_failure offlineEnv sampleEnv "acme" "site"
             None ∅ (snd (getMediaIndex offlineEnv "acme" "site" None ∅))
             (buildErrorResponse offlineEnv "acme" "site" None "404 Not Found")
             (Sheet sampleRaw)).
  - reflexivity.
  - reflexivity.
  - reflexivity.
Defined.

(** X9. The status check asks the remote and never the cache.  When the
    request fails it reports [initialized: false] with the very error
    object that [getMediaIndex] returns for a site without a cache entry;
    for a site that has one, [getMediaIndex] keeps serving the cached
    catalogue with [cached: true] all the same. *)
Theorem checkMediaStatus_ignores_cache
    (env : Env) (org repo : string) (path : option string)
    (mediaCache : gmap string CacheEntry) (message : string) :
  daAdminRequest env (buildMediaUrl env org repo path) = Rejects message ->
  checkMediaStatus env org repo path
    = NotInitialized (buildErrorResponse env org repo path message)
  /\ (mediaCache !! cacheKey org repo path = None ->
      getMediaIndex env org repo path mediaCache
      = (IndexError (buildErrorResponse env org repo path message), mediaCache))
  /\ (forall cached,
        mediaCache !! cacheKey org repo path = Some cached ->
        getMediaIndex env org repo path mediaCache
        = (IndexData (uniqueItems (structures cached))
             (length (uniqueItems (structures cached)))
             (fetchedAt cached) true,
           mediaCache)).
Proof.
  intros Hrej. split; [|split].
  - unfold checkMediaStatus. now rewrite Hrej.
  - intros Hmiss. now apply getMediaIndex_miss_rejects.
  - intros cached Hhit. now apply getMediaIndex_hit.
Qed.

Lemma checkMediaStatus_ignores_cache_witness :
  checkMediaStatus offlineEnv "acme" "site" None
  = NotInitialized (buildErrorResponse offlineEnv "acme" "site" None "404 Not Found").
Proof.
  apply (checkMediaStatus_ignores_cache offlineEnv "acme" "site" None sampleCache).
  reflexivity.
Defined.

(** X10. [searchMedia], [getMediaStats] and [findMediaUsage] leave the
    cache exactly as their initial [getMediaIndex] leaves it, and when
    that call returns the error object they return it unchanged. *)
Theorem read_operations_follow_index
    (env : Env) (org repo : string) (path mediaUrl mediaName : option string)
    (filters : Filters) (mediaCache : gmap string CacheEntry) :
  snd (searchMedia env org repo path filters mediaCache)
    = snd (getMediaIndex env org repo path mediaCache)
  /\ snd (getMediaStats env org repo path mediaCache)
    = snd (getMediaIndex env org repo path mediaCache)
  /\ snd (findMediaUsage env org repo path mediaUrl mediaName mediaCache)
    = snd (getMediaIndex env org repo path mediaCache)
  /\ forall e,
       fst (getMediaIndex env org repo path mediaCache) = IndexError e ->
       fst (searchMedia env org repo path filters mediaCache) = SearchError e
       /\ fst (getMediaStats env org repo path mediaCache) = StatsError e
       /\ fst (findMediaUsage env org repo path mediaUrl mediaName mediaCache)
          = UsageError e.
Proof.
  split; [apply searchMedia_cache|]. split; [apply getMediaStats_cache|].
  split; [apply findMediaUsage_cache|].
  intros e. unfold searchMedia, getMediaStats, findMediaUsage.
  destruct (getMediaIndex env org repo path mediaCache)
    as [[data total t c|e'] st]; simpl; [discriminate|].
  intros [= ->]. auto.
Qed.

Lemma read_operations_follow_index_witness :
  fst (searchMedia offlineEnv "acme" "site" None onlyUnused ∅)
  = SearchError (buildErrorResponse offlineEnv "acme" "site" None "404 Not Found").
Proof.
  apply (read_operations_follow_index offlineEnv "acme" "site" None None None
           onlyUnused ∅).
  reflexivity.
Defined.

Section BuiltCache.

Variables (env : Env) (org repo : string) (path : option string).

Lemma getMediaIndex_keeps_built (mediaCache : gmap string CacheEntry) :
  builtCache mediaCache ->
  builtCache (snd (getMediaIndex env org repo path mediaCache)).
Proof.
  intros Hc. unfold getMediaIndex.
  destruct (mediaCache !! cacheKey org repo path); [exact Hc|].
  destruct (daAdminRequest env (buildMediaUrl env org repo path))
    as [message|body]; [exact Hc|].
  simpl. intros key cached.
  destruct (decide (cacheKey org repo path = key)) as [<-|Hne].
  - rewrite lookup_insert_eq. intros [= <-]. simpl.
    now destruct (buildMediaStructures_fields (mediaDataOf body))
      as (_ & _ & ->).
  - rewrite lookup_insert_ne by exact Hne. apply Hc.
Qed.

End BuiltCache.

(** X11. The cache only ever holds indices made by the builder from the
    raw records stored beside them: this holds of the empty cache and is
    kept by [getMediaIndex], [refreshMediaCache], [searchMedia],
    [getMediaStats] and [findMediaUsage]. *)
Theorem builtCache_preserved
    (env : Env) (org repo : string) (path mediaUrl mediaName : option string)
    (filters : Filters) (mediaCache : gmap string CacheEntry) :
  builtCache mediaCache ->
  builtCache ∅
  /\ builtCache (snd (getMediaIndex env org repo path mediaCache))
  /\ builtCache (snd (refreshMediaCache env org repo path mediaCache))
  /\ builtCache (snd (searchMedia env org repo path filters mediaCache))
  /\ builtCache (snd (getMediaStats env org repo path mediaCache))
  /\ builtCache (snd (findMediaUsage env org repo path mediaUrl mediaName
                        mediaCache)).
Proof.
  intros Hwf.
  pose proof (getMediaIndex_keeps_built env org repo path) as Hstep.
  rewrite searchMedia_cache, getMediaStats_cache, findMediaUsage_cache.
  split; [intros key cached; rewrite lookup_empty; discriminate|].
  split; [now apply Hstep|]. split; [|auto].
  apply Hstep. intros key cached Hget.
  apply lookup_delete_Some in Hget as [_ Hget]. eapply Hwf, Hget.
Qed.

Lemma builtCache_preserved_witness :
  builtCache (snd (getMediaStats sampleEnv "acme" "site" None ∅)).
Proof.
  apply (builtCache_preserved sampleEnv "acme" "site" None None None noFilters ∅).
  intros key cached H. discriminate H.
Defined.

(** ** Statistics *)

Section StatsShape.

Implicit Types (raw : list RawRecord) (r : RawRecord).

Lemma stats_loop_snoc raw r :
  stats_loop (raw ++ [r]) = stats_step (stats_loop raw) r.
Proof. unfold stats_loop. now rewrite fold_left_app. Qed.

Lemma countIf_snoc {A : Type} (f : A -> bool) (l : list A) (a : A) :
  countIf f (l ++ [a]) = countIf f l + (if f a then 1 else 0).
Proof.
  unfold countIf. rewrite List.filter_app, length_app. simpl.
  now destruct (f a).
Qed.

Lemma countIf_le {A : Type} (f : A -> bool) (l : list A) :
  countIf f l <= length l.
Proof. unfold countIf. apply List.filter_length_le. Qed.

Lemma string_app_assoc (a b c : string) : (a +:+ b) +:+ c = a +:+ (b +:+ c).
Proof.
  induction a as [|ch a IH]; [reflexivity|].
  change (String ch ((a +:+ b) +:+ c) = String ch (a +:+ (b +:+ c))).
  now f_equal.
Qed.

Lemma ones_snoc (n : nat) : ones n +:+ "1" = ones (S n).
Proof.
  induction n as [|n IH]; [reflexivity|].
  change (String "1"%char (ones n +:+ "1") = String "1"%char (ones (S n))).
  now f_equal.
Qed.

Lemma bump_text (s : string) :
  s <> EmptyString -> bump (Str s) = Str (s +:+ "1").
Proof. destruct s; [congruence|reflexivity]. Qed.

Lemma nativeText_app_nonempty (fname x : string) :
  nativeText fname +:+ x <> EmptyString.
Proof. unfold nativeText. simpl. discriminate. Qed.

Lemma bump_nativeText (fname : string) (n : nat) :
  bump (Str (nativeText fname +:+ ones n))
  = Str (nativeText fname +:+ ones (S n)).
Proof.
  rewrite bump_text by apply nativeText_app_nonempty.
  now rewrite string_app_assoc, ones_snoc.
Qed.

Lemma typeCountStep_other (tc : gmap string JSVal) (ty k : string) :
  ty <> k -> typeCountStep tc ty !! k = tc !! k.
Proof.
  intros Hne. unfold typeCountStep.
  destruct (String.eqb ty "__proto__"); [reflexivity|].
  destruct (tc !! ty); [now rewrite lookup_insert_ne|].
  destruct (inheritedMethod ty); now rewrite lookup_insert_ne.
Qed.

(** One more record filed under [ty] takes the own property from its state
    after [n] records to its state after [n + 1]. *)
Lemma typeCountStep_same (tc : gmap string JSVal) (ty : string) (n : nat) :
  tc !! ty = ownEntry ty n ->
  typeCountStep tc ty !! ty = ownEntry ty (n + 1).
Proof.
  unfold typeCountStep, ownEntry, inheritedMethod.
  replace (Nat.eqb (n + 1) 0) with false
    by (symmetry; apply Nat.eqb_neq; lia).
  destruct (String.eqb ty "__proto__").
  - intros ->. now destruct (Nat.eqb n 0).
  - destruct n as [|m]; cbn [Nat.eqb]; intros ->.
    + destruct (JSMap.get ty objectPrototypeMethods) as [fname|];
        cbn [fmap option_fmap option_map]; rewrite lookup_insert_eq.
      * rewrite bump_text by (unfold nativeText; simpl; discriminate).
        reflexivity.
      * reflexivity.
    + destruct (JSMap.get ty objectPrototypeMethods) as [fname|];
        cbn [fmap option_fmap option_map]; rewrite lookup_insert_eq.
      * rewrite bump_nativeText.
        replace (S m + 1) with (S (S m)) by lia. reflexivity.
      * reflexivity.
Qed.

(** What the loop of [getMediaStats] has computed at its end. *)
Lemma stats_loop_closed raw :
  (forall ty, (stats_loop raw).1.1 !! ty = byTypeOf raw ty)
  /\ (stats_loop raw).1.2 = countIf unusedRecord raw
  /\ filled (stats_loop raw).2 = countIf altFilled raw
  /\ decorative (stats_loop raw).2 = countIf altDecorative raw
  /\ notFilled (stats_loop raw).2 = countIf altNotFilled raw.
Proof.
  induction raw as [|r raw IH] using rev_ind.
  - split; [intros ty; apply lookup_empty|repeat split].
  - rewrite stats_loop_snoc, !countIf_snoc.
    destruct (stats_loop raw) as [[tc un] a].
    cbn [fst snd] in IH. destruct IH as (Hty & Hun & Hf & Hd & Hn).
    rewrite stats_step_typeCount.
    unfold stats_step. cbn [fst snd]. split; [|split; [|split; [|split]]].
    + intros ty. unfold byTypeOf. rewrite countIf_snoc. unfold hasType at 2.
      destruct (String.eqb_spec (typeOrUnknown r) ty) as [<-|Hne].
      * apply typeCountStep_same. apply Hty.
      * rewrite typeCountStep_other by exact Hne.
        rewrite Nat.add_0_r. apply Hty.
    + rewrite Hun. generalize (countIf unusedRecord raw). intros n.
      unfold unusedRecord. destruct (JS.truthy (doc r)); simpl; lia.
    + rewrite <- Hf. unfold altFilled.
      destruct (JS.strictEq (alt r) "null"), (JS.truthy (alt r)); simpl; lia.
    + rewrite <- Hd. unfold altDecorative.
      destruct (JS.strictEq (alt r) "null"), (JS.truthy (alt r)); simpl; lia.
    + rewrite <- Hn. unfold altNotFilled.
      destruct (JS.strictEq (alt r) "null"), (JS.truthy (alt r)); simpl; lia.
Qed.

Lemma getMediaStats_data (env : Env) (org repo : string) (path : option string)
    (mediaCache mediaCache' : gmap string CacheEntry) (s : Stats) :
  getMediaStats env org repo path mediaCache = (StatsData s, mediaCache') ->
  exists cached,
    mediaCache' !! cacheKey org repo path = Some cached
    /\ mediaCache' = snd (getMediaIndex env org repo path mediaCache)
    /\ stats_uniqueItems s = length (uniqueItems (structures cached))
    /\ totalReferences s = length (rawData (structures cached))
    /\ byType s = (stats_loop (rawData (structures cached))).1.1
    /\ unused s = (stats_loop (rawData (structures cached))).1.2
    /\ altText s = (stats_loop (rawData (structures cached))).2.
Proof.
  unfold getMediaStats.
  destruct (getMediaIndex env org repo path mediaCache)
    as [[data total t c|e] st] eqn:G; [|discriminate].
  apply getMediaIndex_data_cached in G as (cached & Hentry & -> & _).
  rewrite Hentry.
  destruct (stats_loop (rawData (structures cached))) as [[tc un] a] eqn:S.
  intros [= <- <-]. exists cached. rewrite S. simpl.
  split; [exact Hentry|]. repeat split.
Qed.

End StatsShape.

(** X12. In the statistics, [unused] is the number of raw records whose
    [doc] is empty or absent, and the alt text counters sort every raw
    record into exactly one class: [notFilled] counts the records whose
    [alt] is the text ["null"], [decorative] those whose [alt] is empty or
    absent, [filled] all the others. *)
Theorem getMediaStats_breakdown
    (env : Env) (org repo : string) (path : option string)
    (mediaCache mediaCache' : gmap string CacheEntry) (s : Stats) :
  getMediaStats env org repo path mediaCache = (StatsData s, mediaCache') ->
  exists cached,
    mediaCache' !! cacheKey org repo path = Some cached
    /\ unused s = countIf unusedRecord (rawData (structures cached))
    /\ notFilled (altText s)
       = countIf altNotFilled (rawData (structures cached))
    /\ decorative (altText s)
       = countIf altDecorative (rawData (structures cached))
    /\ filled (altText s) = countIf altFilled (rawData (structures cached))
    /\ unused s <= totalReferences s.
Proof.
  intros (cached & Hentry & _ & _ & Htot & _ & Hun & Halt)%getMediaStats_data.
  destruct (stats_loop_closed (rawData (structures cached)))
    as (_ & Hu & Hf & Hd & Hn).
  exists cached. rewrite Hun, Halt, Htot, Hu, Hf, Hd, Hn.
  repeat split; auto. apply countIf_le.
Qed.

Lemma getMediaStats_breakdown_witness :
  exists cached,
    snd (getMediaStats sampleEnv "acme" "site" None ∅)
      !! cacheKey "acme" "site" None = Some cached
    /\ 1 = countIf unusedRecord (rawData (structures cached)).
Proof.
  destruct (getMediaStats_breakdown sampleEnv "acme" "site" None ∅
              (snd (getMediaStats sampleEnv "acme" "site" None ∅))
              {| stats_uniqueItems := 2;
                 totalReferences := 3;
                 byType := {["img > png" := Num 3]};
                 unused := 1;
                 altText := {| filled := 1; decorative := 1; notFilled := 1 |} |})
    as (cached & H1 & H2 & _).
  - vm_compute. reflexivity.
  - exists cached. split; [exact H1|exact H2].
Defined.

(** X13. What [byType] holds under a type name, with [n] the number of
    raw records filed under it (records whose [type] is empty or absent
    are filed under ["unknown"]).  Under a name that clashes with no
    member of [Object.prototype] there is an entry exactly when [n] is not
    0, and it is the number [n].  Under the name of an inherited method
    ([constructor], [toString], ...) the entry, present when [n] is not
    0, is no number but the text of that method followed by [n] times
    ['1'].  Under [__proto__] there is never an entry. *)
Theorem getMediaStats_byType
    (env : Env) (org repo : string) (path : option string)
    (mediaCache mediaCache' : gmap string CacheEntry) (s : Stats) :
  getMediaStats env org repo path mediaCache = (StatsData s, mediaCache') ->
  exists cached,
    mediaCache' !! cacheKey org repo path = Some cached
    /\ (forall ty,
          plainType ty = true ->
          byType s !! ty
          = if Nat.eqb (countIf (hasType ty) (rawData (structures cached))) 0
            then None
            else Some (Num (countIf (hasType ty) (rawData (structures cached)))))
    /\ (forall ty text,
          inheritedMethod ty = Some text ->
          byType s !! ty
          = if Nat.eqb (countIf (hasType ty) (rawData (structures cached))) 0
            then None
            else Some (Str (text +:+ ones (countIf (hasType ty)
                                            (rawData (structures cached))))))
    /\ byType s !! "__proto__" = None
    /\ (forall r, JS.truthy (type r) = false -> hasType "unknown" r = true)
    /\ (forall r ty, type r = Some ty -> ty <> EmptyString ->
          forall ty', hasType ty' r = true <-> ty' = ty).
Proof.
  intros (cached & Hentry & _ & _ & _ & Hty & _)%getMediaStats_data.
  destruct (stats_loop_closed (rawData (structures cached))) as (Hclosed & _).
  exists cached. split; [exact Hentry|].
  split; [|split; [|split; [|split]]].
  - intros ty [Hp Hi]%plainType_inv. rewrite Hty, Hclosed.
    unfold byTypeOf, ownEntry. now rewrite Hp, Hi.
  - intros ty text Hi. rewrite Hty, Hclosed. unfold byTypeOf, ownEntry.
    rewrite Hi.
    destruct (String.eqb_spec ty "__proto__") as [->|_]; [discriminate Hi|].
    reflexivity.
  - rewrite Hty, Hclosed. unfold byTypeOf, ownEntry.
    now destruct (Nat.eqb _ 0).
  - intros r Hr. unfold hasType, typeOrUnknown.
    destruct (type r) as [ty|]; [|reflexivity]. now rewrite Hr.
  - intros r ty Hr Hne ty'. unfold hasType, typeOrUnknown. rewrite Hr.
    destruct ty as [|ch ty]; [congruence|]. cbn -[String.eqb].
    rewrite String.eqb_eq.
    split; congruence.
Qed.

Lemma getMediaStats_byType_witness :
  exists cached,
    snd (getMediaStats clashEnv "acme" "site" None ∅)
      !! cacheKey "acme" "site" None = Some cached
    /\ ({["constructor" := Str "function Object() { [native code] }11";
          "unknown" := Num 1]} : gmap string JSVal) !! "__proto__" = None.
Proof.
  destruct (getMediaStats_byType clashEnv "acme" "site" None ∅
              (snd (getMediaStats clashEnv "acme" "site" None ∅))
              {| stats_uniqueItems := 1;
                 totalReferences := 4;
                 byType :=
                   {["constructor" := Str "function Object() { [native code] }11";
                     "unknown" := Num 1]};
                 unused := 0;
                 altText := {| filled := 4; decorative := 0; notFilled := 0 |} |})
    as (cached & H1 & _ & _ & H2 & _).
  - vm_compute. reflexivity.
  - exists cached. split; [exact H1|exact H2].
Defined.

(** X14. For a cache that only holds built indices, the [uniqueItems]
    count of the statistics is the number of distinct canonical keys and
    never exceeds [totalReferences]; it falls short of it as soon as a raw
    record has no location identifier or shares its canonical key. *)
Theorem getMediaStats_uniqueItems
    (env : Env) (org repo : string) (path : option string)
    (mediaCache mediaCache' : gmap string CacheEntry) (s : Stats) :
  builtCache mediaCache ->
  getMediaStats env org repo path mediaCache = (StatsData s, mediaCache') ->
  exists cached,
    mediaCache' !! cacheKey org repo path = Some cached
    /\ stats_uniqueItems s
       = length (firstOccurrences (keysOf (rawData (structures cached))))
    /\ stats_uniqueItems s <= totalReferences s
    /\ (stats_uniqueItems s = totalReferences s <->
        forallb hasUrl (rawData (structures cached)) = true
        /\ NoDup (keysOf (rawData (structures cached)))).
Proof.
  intros Hwf Hstats.
  pose proof (getMediaIndex_keeps_built env org repo path mediaCache Hwf)
    as Hwf'.
  apply getMediaStats_data in Hstats
    as (cached & Hentry & -> & Huniq & Htot & _).
  specialize (Hwf' _ _ Hentry).
  set (raw := rawData (structures cached)) in *.
  assert (Hlen : length (uniqueItems (structures cached))
                 = length (JSSet.of_list (keysOf raw))).
  { rewrite Hwf'. destruct (buildMediaStructures_fields raw) as (-> & _ & _).
    rewrite length_values_keys. now destruct (build_maps_keys raw) as [-> _]. }
  pose proof (length_of_list_le (keysOf raw)) as Hle.
  pose proof (length_of_list_eq (keysOf raw)) as Heq.
  pose proof (List.filter_length_le hasUrl raw) as Hfl.
  pose proof (length_keysOf raw) as Hk.
  exists cached. rewrite Huniq, Htot, Hlen.
  split; [exact Hentry|]. split; [now rewrite of_list_firstOccurrences|].
  split; [lia|]. split.
  - fold raw. intros H. split.
    + apply List.filter_length_forallb. lia.
    + apply Heq. lia.
  - fold raw. intros [Hall Hnd]. apply Heq in Hnd. rewrite Hnd, Hk.
    f_equal. apply List.forallb_filter_id. exact Hall.
Qed.

Lemma getMediaStats_uniqueItems_witness :
  exists cached,
    snd (getMediaStats sampleEnv "acme" "site" None ∅)
      !! cacheKey "acme" "site" None = Some cached
    /\ 2 = length (firstOccurrences (keysOf (rawData (structures cached)))).
Proof.
  destruct (getMediaStats_uniqueItems sampleEnv "acme" "site" None ∅
              (snd (getMediaStats sampleEnv "acme" "site" None ∅))
              {| stats_uniqueItems := 2;
                 totalReferences := 3;
                 byType := {["img > png" := Num 3]};
                 unused := 1;
                 altText := {| filled := 1; decorative := 1; notFilled := 1 |} |})
    as (cached & H1 & H2 & _).
  - intros key cached H. discriminate H.
  - vm_compute. reflexivity.
  - exists cached. split; [exact H1|exact H2].
Defined.

(** ** Search *)

Section SearchShape.

Implicit Types (f : Filters) (e : CatalogueEntry).

(** The chain of early returns lets an item through exactly when it
    meets each of the six criteria. *)
Lemma searchCallback_criteria f e :
  searchCallback f e
  = typeOk f (item e) && docOk f (item e) && nameOk f (item e)
    && altOk f (item e) && unusedOk f (item e) && missingAltOk f (item e).
Proof.
  assert (H5 : flag (unusedOnly f) && JS.truthy (doc (item e))
               && negb (JS.strictEq (doc (item e)) EmptyString)
               = negb (unusedOk f (item e))).
  { unfold unusedOk, unusedRecord.
    destruct (doc (item e)) as [[|c d]|], (flag (unusedOnly f)); reflexivity. }
  assert (H6 : flag (missingAlt f) && JS.truthy (alt (item e))
               && negb (JS.strictEq (alt (item e)) EmptyString)
               && negb (JS.strictEq (alt (item e)) "null")
               = negb (missingAltOk f (item e))).
  { unfold missingAltOk, altFilled.
    destruct (alt (item e)) as [[|c d]|]; cbn -[String.eqb];
      destruct (flag (missingAlt f)); cbn -[String.eqb];
      try reflexivity.
    now destruct (String.eqb (String c d) "null"). }
  unfold searchCallback. rewrite H5, H6.
  unfold typeOk, docOk, nameOk, altOk.
  destruct (JS.truthy (filter_type f)), (JS.truthy (type (item e))),
    (JS.includes (default EmptyString (type (item e)))
       (default EmptyString (filter_type f)));
    cbn [negb andb orb]; try reflexivity;
    destruct (JS.truthy (filter_doc f)),
      (JS.strictEq (doc (item e)) (default EmptyString (filter_doc f)));
    cbn [negb andb orb]; try reflexivity;
    destruct (JS.truthy (JS.toLowerCase <$> filter_name f)),
      (JS.truthy (name (item e))),
      (JS.includes (JS.toLowerCase (default EmptyString (name (item e))))
         (default EmptyString (JS.toLowerCase <$> filter_name f)));
    cbn [negb andb orb]; try reflexivity;
    destruct (JS.truthy (JS.toLowerCase <$> filter_alt f)),
      (JS.truthy (alt (item e))),
      (JS.includes (JS.toLowerCase (default EmptyString (alt (item e))))
         (default EmptyString (JS.toLowerCase <$> filter_alt f)));
    cbn [negb andb orb]; try reflexivity;
    destruct (unusedOk f (item e)), (missingAltOk f (item e)); reflexivity.
Qed.

Lemma searchCallback_refines f' f e :
  refines f' f -> searchCallback f' e = true -> searchCallback f e = true.
Proof.
  intros (Hty & Hdoc & Hname & Halt & Hun & Hmiss).
  rewrite !searchCallback_criteria, !andb_true_iff.
  intros (((((H1 & H2) & H3) & H4) & H5) & H6).
  repeat split.
  - unfold typeOk in *. destruct (JS.truthy (filter_type f)) eqn:E;
      [|reflexivity]. rewrite (Hty eq_refl), E in H1. exact H1.
  - unfold docOk in *. destruct (JS.truthy (filter_doc f)) eqn:E;
      [|reflexivity]. rewrite (Hdoc eq_refl), E in H2. exact H2.
  - unfold nameOk in *.
    destruct (JS.truthy (JS.toLowerCase <$> filter_name f)) eqn:E;
      [|reflexivity]. rewrite (Hname eq_refl), E in H3. exact H3.
  - unfold altOk in *.
    destruct (JS.truthy (JS.toLowerCase <$> filter_alt f)) eqn:E;
      [|reflexivity]. rewrite (Halt eq_refl), E in H4. exact H4.
  - unfold unusedOk in *. destruct (flag (unusedOnly f)) eqn:E;
      [|reflexivity]. rewrite (Hun eq_refl) in H5. exact H5.
  - unfold missingAltOk in *. destruct (flag (missingAlt f)) eqn:E;
      [|reflexivity]. rewrite (Hmiss eq_refl) in H6. exact H6.
Qed.

Lemma filter_sublist_mono {A : Type} (g h : A -> bool) (l : list A) :
  (forall x, g x = true -> h x = true) ->
  sublist (List.filter g l) (List.filter h l).
Proof.
  intros Himp. induction l as [|x l IH]; simpl; [constructor|].
  destruct (g x) eqn:G.
  - rewrite (Himp x G). now constructor.
  - destruct (h x); [now constructor|exact IH].
Qed.

Lemma filter_sublist {A : Type} (g : A -> bool) (l : list A) :
  sublist (List.filter g l) l.
Proof.
  induction l as [|x l IH]; simpl; [constructor|].
  destruct (g x); now constructor.
Qed.

Lemma searchMedia_data (env : Env) (org repo : string) (path : option string)
    f (mediaCache mediaCache' : gmap string CacheEntry)
    (results : list CatalogueEntry) (n : nat) :
  searchMedia env org repo path f mediaCache = (SearchData results n, mediaCache') ->
  exists cached,
    mediaCache' !! cacheKey org repo path = Some cached
    /\ mediaCache' = snd (getMediaIndex env org repo path mediaCache)
    /\ results = List.filter (searchCallback f) (uniqueItems (structures cached))
    /\ n = length results.
Proof.
  unfold searchMedia.
  destruct (getMediaIndex env org repo path mediaCache)
    as [[data total t c|e] st] eqn:G; [|discriminate].
  apply getMediaIndex_data_cached in G as (cached & Hentry & -> & _).
  intros [= <- <- <-]. exists cached. auto.
Qed.

End SearchShape.

(** X15. Search results are taken from the catalogue in catalogue order,
    [count] is their number, and narrowing the criteria can only remove
    results: if [f'] sets every criterion that [f] sets to the same value,
    then on the same cache the results for [f'] are a sub-sequence of the
    results for [f]. *)
Theorem searchMedia_monotone
    (env : Env) (org repo : string) (path : option string) (f f' : Filters)
    (mediaCache mediaCache' : gmap string CacheEntry)
    (results : list CatalogueEntry) (n : nat) :
  searchMedia env org repo path f mediaCache
    = (SearchData results n, mediaCache') ->
  refines f' f ->
  (exists cached,
     mediaCache' !! cacheKey org repo path = Some cached
     /\ sublist results (uniqueItems (structures cached)))
  /\ n = length results
  /\ exists results',
       searchMedia env org repo path f' mediaCache
         = (SearchData results' (length results'), mediaCache')
       /\ sublist results' results
       /\ length results' <= n.
Proof.
  intros Hsearch Href. pose proof Hsearch as Hsearch'.
  apply searchMedia_data in Hsearch as (cached & Hentry & Hst & -> & ->).
  split; [exists cached; split; [exact Hentry|apply filter_sublist]|].
  split; [reflexivity|].
  unfold searchMedia in *.
  destruct (getMediaIndex env org repo path mediaCache)
    as [[data total t c|e] st]; [|discriminate].
  injection Hsearch' as Hres _ Hst'. subst st. rewrite <- Hres.
  eexists. split; [reflexivity|].
  assert (Hsub : sublist (List.filter (searchCallback f') data)
                   (List.filter (searchCallback f) data)).
  { apply filter_sublist_mono. intros e. now apply searchCallback_refines. }
  split; [exact Hsub|]. now apply sublist_length.
Qed.

Lemma searchMedia_monotone_witness :
  exists results',
    searchMedia sampleEnv "acme" "site" None unusedAndMissingAlt ∅
      = (SearchData results' (length results'),
         snd (searchMedia sampleEnv "acme" "site" None onlyUnused ∅))
    /\ sublist results'
         [{| item := mkRecord (Some "b.png") (Some "") (Some "null");
             usageCount := 1 |}]
    /\ length results' <= 1.
Proof.
  apply (searchMedia_monotone sampleEnv "acme" "site" None onlyUnused
           unusedAndMissingAlt ∅
           (snd (searchMedia sampleEnv "acme" "site" None onlyUnused ∅))
           [{| item := mkRecord (Some "b.png") (Some "") (Some "null");
               usageCount := 1 |}] 1).
  - vm_compute. reflexivity.
  - unfold refines. simpl. repeat split; auto; discriminate.
Defined.

(** X16. A search in which no criterion is set (each text criterion
    absent or empty, each flag absent or false) returns the whole
    catalogue, with [count] equal to the [total] of [getMediaIndex]. *)
Theorem searchMedia_no_criteria
    (env : Env) (org repo : string) (path : option string) (f : Filters)
    (mediaCache mediaCache' : gmap string CacheEntry)
    (data : list CatalogueEntry) (total : nat) (fetched : Z) (c : bool) :
  JS.truthy (filter_type f) = false ->
  JS.truthy (filter_doc f) = false ->
  JS.truthy (filter_name f) = false ->
  JS.truthy (filter_alt f) = false ->
  flag (unusedOnly f) = false ->
  flag (missingAlt f) = false ->
  getMediaIndex env org repo path mediaCache
    = (IndexData data total fetched c, mediaCache') ->
  searchMedia env org repo path f mediaCache
    = (SearchData data total, mediaCache').
Proof.
  intros Hty Hdoc Hname Halt Hun Hmiss Hget.
  assert (Htotal : total = length data).
  { unfold getMediaIndex in Hget.
    destruct (mediaCache !! cacheKey org repo path).
    - now injection Hget as <- <- _ _ _.
    - destruct (daAdminRequest env (buildMediaUrl env org repo path));
        [discriminate|]. now injection Hget as <- <- _ _ _. }
  assert (Hall : forall e, searchCallback f e = true).
  { intros e. rewrite searchCallback_criteria.
    unfold typeOk, docOk, nameOk, altOk, unusedOk, missingAltOk.
    rewrite Hty, Hdoc, Hun, Hmiss.
    destruct (filter_name f) as [[|? ?]|], (filter_alt f) as [[|? ?]|];
      try discriminate; reflexivity. }
  unfold searchMedia. rewrite Hget.
  rewrite List.forallb_filter_id by (apply forallb_forall; auto).
  now rewrite Htotal.
Qed.

Lemma searchMedia_no_criteria_witness :
  searchMedia sampleEnv "acme" "site" None noFilters sampleCache
  = (SearchData (uniqueItems (buildMediaStructures sampleRaw)) 2, sampleCache).
Proof.
  apply (searchMedia_no_criteria sampleEnv "acme" "site" None noFilters
           sampleCache sampleCache _ 2 1690000000000%Z true);
    reflexivity.
Defined.

(** X17. Search judges a media item by the first raw record that carries
    its canonical key and by nothing else.  In a cache of built indices,
    every result copies that first record; with [unusedOnly] its [doc] is
    empty or absent, with a [doc] criterion its [doc] is the one asked
    for, and with [missingAlt] its [alt] is absent, empty or ["null"],
    whatever the later records of the same key say. *)
Theorem searchMedia_first_seen
    (env : Env) (org repo : string) (path : option string) (f : Filters)
    (mediaCache mediaCache' : gmap string CacheEntry)
    (results : list CatalogueEntry) (n : nat) (e : CatalogueEntry) :
  builtCache mediaCache ->
  searchMedia env org repo path f mediaCache
    = (SearchData results n, mediaCache') ->
  In e results ->
  exists cached,
    mediaCache' !! cacheKey org repo path = Some cached
    /\ find (carries (entryKey e)) (rawData (structures cached))
       = Some (item e)
    /\ (flag (unusedOnly f) = true -> unusedRecord (item e) = true)
    /\ (JS.truthy (filter_doc f) = true -> doc (item e) = filter_doc f)
    /\ (flag (missingAlt f) = true -> altFilled (item e) = false).
Proof.
  intros Hwf Hsearch Hin.
  pose proof (getMediaIndex_keeps_built env org repo path mediaCache Hwf)
    as Hwf'.
  apply searchMedia_data in Hsearch as (cached & Hentry & -> & -> & _).
  specialize (Hwf' _ _ Hentry).
  apply filter_In in Hin as [Hin Hpass].
  rewrite searchCallback_criteria, !andb_true_iff in Hpass.
  destruct Hpass as (((((_ & H2) & _) & _) & H5) & H6).
  exists cached. split; [exact Hentry|]. split; [|split; [|split]].
  - rewrite Hwf' in Hin. apply entry_of_uniqueItems in Hin.
    now destruct (entry_shape _ _ _ Hin) as (F & _).
  - intros Hflag. unfold unusedOk in H5. now rewrite Hflag in H5.
  - intros Hdoc. unfold docOk in H2. rewrite Hdoc in H2. simpl in H2.
    destruct (filter_doc f) as [d|]; [|discriminate]. simpl in H2.
    unfold JS.strictEq in H2. destruct (doc (item e)) as [d'|]; [|discriminate].
    apply String.eqb_eq in H2. now subst.
  - intros Hflag. unfold missingAltOk in H6. rewrite Hflag in H6.
    simpl in H6. now apply negb_true_iff in H6.
Qed.

Lemma searchMedia_first_seen_witness :
  exists cached,
    snd (searchMedia sampleEnv "acme" "site" None (docFilter "p1") ∅)
      !! cacheKey "acme" "site" None = Some cached
    /\ find (carries "a.png") (rawData (structures cached))
       = Some (mkRecord (Some "a.png?x=1") (Some "p1") (Some "")).
Proof.
  destruct (searchMedia_first_seen sampleEnv "acme" "site" None (docFilter "p1")
              ∅ (snd (searchMedia sampleEnv "acme" "site" None (docFilter "p1") ∅))
              [{| item := mkRecord (Some "a.png?x=1") (Some "p1") (Some "");
                  usageCount := 2 |}] 1
              {| item := mkRecord (Some "a.png?x=1") (Some "p1") (Some "");
                 usageCount := 2 |})
    as (cached & H1 & H2 & _).
  - intros key cached H. discriminate H.
  - vm_compute. reflexivity.
  - left. reflexivity.
  - exists cached. split; [exact H1|exact H2].
Defined.

(** ** Usage lookup *)

Section LookupShape.

Implicit Types (raw : list RawRecord) (cached : CacheEntry).

Lemma find_values_get (m : JSMap.t CatalogueEntry) (k : string) :
  (forall k' e, In (k', e) m -> entryKey e = k') ->
  find (fun e => String.eqb (entryKey e) k) (JSMap.values m) = JSMap.get k m.
Proof.
  induction m as [|[k0 e0] m IH]; simpl; [reflexivity|]. intros H.
  rewrite (H k0 e0) by now left. rewrite (String.eqb_sym k0 k).
  destruct (String.eqb k k0); [reflexivity|].
  apply IH. intros k' e Hin. apply H. now right.
Qed.

Lemma findItem_built raw (k : string) :
  findItem (uniqueItems (buildMediaStructures raw)) k
  = match JSMap.get k (fst (build_maps raw)) with
    | Some e => ItemOf e
    | None => ItemUndefined
    end.
Proof.
  unfold findItem.
  destruct (buildMediaStructures_fields raw) as (-> & _ & _).
  change (fun e => String.eqb (getGroupingKey (url (item e))) k)
    with (fun e => String.eqb (entryKey e) k).
  rewrite find_values_get by apply build_maps_entryKey. reflexivity.
Qed.

Lemma find_filter_same {A : Type} (g h : A -> bool) (l : list A) :
  (forall x, h x = false -> g x = false) ->
  find g (List.filter h l) = find g l.
Proof.
  intros Himp. induction l as [|x l IH]; simpl; [reflexivity|].
  destruct (h x) eqn:Hx; simpl.
  - destruct (g x); [reflexivity|exact IH].
  - rewrite (Himp x Hx). exact IH.
Qed.

Lemma find_firstOccurrences (g : string -> bool) (l : list string) :
  find g (firstOccurrences l) = find g l.
Proof.
  induction l as [|x l IH]; simpl; [reflexivity|].
  destruct (g x) eqn:Gx; [reflexivity|].
  rewrite find_filter_same; [exact IH|].
  intros y Hy. apply negb_false_iff, String.eqb_eq in Hy. now subst.
Qed.

Lemma find_keysOf (g : string -> bool) raw :
  find g (keysOf raw)
  = (fun r => getGroupingKey (url r))
      <$> find (fun r => hasUrl r && g (getGroupingKey (url r))) raw.
Proof.
  unfold keysOf. induction raw as [|r raw IH]; simpl; [reflexivity|].
  destruct (hasUrl r); simpl; [|exact IH].
  destruct (g (getGroupingKey (url r))); [reflexivity|exact IH].
Qed.

Lemma includes_empty_key (s : string) :
  s <> EmptyString -> JS.includes EmptyString s = false.
Proof. destruct s; [congruence|reflexivity]. Qed.

Lemma toLowerCase_nonempty (s : string) :
  s <> EmptyString -> JS.toLowerCase s <> EmptyString.
Proof. destruct s; [congruence|discriminate]. Qed.

Lemma findMediaUsage_lookup (env : Env) (org repo : string)
    (path mediaUrl mediaName : option string)
    (mediaCache : gmap string CacheEntry) cached :
  snd (getMediaIndex env org repo path mediaCache) !! cacheKey org repo path
    = Some cached ->
  findMediaUsage env org repo path mediaUrl mediaName mediaCache
  = (UsageData (lookupUsage cached mediaUrl mediaName),
     snd (getMediaIndex env org repo path mediaCache)).
Proof.
  unfold findMediaUsage.
  destruct (getMediaIndex env org repo path mediaCache)
    as [[data total t c|e] st] eqn:G; simpl.
  - now intros ->.
  - apply getMediaIndex_error_unchanged in G as [-> Hmiss]. congruence.
Qed.

End LookupShape.

(** X18. In a cache of built indices, a lookup that does not end in the
    not-found object returns the catalogue entry of the resolved key as
    [mediaItem], never [undefined]; the [usageCount] of the result is the
    [usageCount] of that entry, the number of raw records carrying the
    key, and [allUsages] holds their usage details in document order. *)
Theorem findMediaUsage_found
    (env : Env) (org repo : string) (path mediaUrl mediaName : option string)
    (mediaCache mediaCache' : gmap string CacheEntry) (u : Usage) :
  builtCache mediaCache ->
  findMediaUsage env org repo path mediaUrl mediaName mediaCache
    = (UsageData u, mediaCache') ->
  u <> notFound ->
  exists cached key first,
    mediaCache' !! cacheKey org repo path = Some cached
    /\ resolveKey (usageIndex (structures cached)) mediaUrl mediaName = Some key
    /\ find (carries key) (rawData (structures cached)) = Some first
    /\ mediaItem u
       = ItemOf {| item := first; usageCount := usage_usageCount u |}
    /\ usage_usageCount u = countIf (carries key) (rawData (structures cached))
    /\ 1 <= usage_usageCount u
    /\ allUsages u
       = map usageDetail (List.filter (carries key) (rawData (structures cached))).
Proof.
  intros Hwf Hfind Hfound.
  pose proof (getMediaIndex_keeps_built env org repo path mediaCache Hwf)
    as Hwf'.
  rewrite <- (findMediaUsage_cache env org repo path mediaUrl mediaName) in Hwf'.
  rewrite Hfind in Hwf'. simpl in Hwf'.
  apply findMediaUsage_data in Hfind as (cached & Hentry & ->).
  specialize (Hwf' _ _ Hentry).
  destruct (lookupUsage_cases cached mediaUrl mediaName)
    as [Hnf|(key & usages & Hkey & Hne & Hget & Heq)]; [contradiction|].
  set (raw := rawData (structures cached)) in *.
  assert (Hix : usageIndex (structures cached) = snd (build_maps raw)).
  { rewrite Hwf'. now destruct (buildMediaStructures_fields raw) as (_ & -> & _). }
  assert (Hitem : findItem (uniqueItems (structures cached)) key
                  = match JSMap.get key (fst (build_maps raw)) with
                    | Some e => ItemOf e
                    | None => ItemUndefined
                    end).
  { rewrite Hwf'. apply findItem_built. }
  rewrite Heq, Hitem. rewrite Hix, build_maps_usages in Hget.
  rewrite build_maps_entry.
  destruct (find (carries key) raw) as [first|] eqn:F; [|discriminate].
  injection Hget as <-.
  exists cached, key, first. simpl. rewrite length_map. unfold countIf.
  repeat split; auto.
  now apply filter_nonempty_of_find with (a := first).
Qed.

Lemma findMediaUsage_found_witness :
  exists cached key first,
    snd (findMediaUsage sampleEnv "acme" "site" None (Some "A.png?w=9") None ∅)
      !! cacheKey "acme" "site" None = Some cached
    /\ resolveKey (usageIndex (structures cached)) (Some "A.png?w=9") None
       = Some key
    /\ find (carries key) (rawData (structures cached)) = Some first.
Proof.
  destruct (findMediaUsage_found sampleEnv "acme" "site" None
              (Some "A.png?w=9") None ∅
              (snd (findMediaUsage sampleEnv "acme" "site" None
                      (Some "A.png?w=9") None ∅))
              (lookupUsage {| structures := buildMediaStructures sampleRaw;
                              fetchedAt := 1700000000000%Z |}
                 (Some "A.png?w=9") None))
    as (cached & key & first & H1 & H2 & H3 & _).
  - intros key cached H. discriminate H.
  - vm_compute. reflexivity.
  - vm_compute. discriminate.
  - exists cached, key, first. split; [exact H1|]. split; [exact H2|exact H3].
Defined.

(** X19. A lookup by URL depends on the canonical key of the URL only:
    two URLs with the same key (differing in letter case or in the query
    string, say) give the same result and the same cache, and a
    [mediaName] given beside a URL is ignored. *)
Theorem findMediaUsage_by_url
    (env : Env) (org repo : string) (path : option string)
    (mediaUrl mediaUrl' mediaName mediaName' : option string)
    (mediaCache : gmap string CacheEntry) :
  JS.truthy mediaUrl = true ->
  JS.truthy mediaUrl' = true ->
  getGroupingKey mediaUrl = getGroupingKey mediaUrl' ->
  findMediaUsage env org repo path mediaUrl mediaName mediaCache
  = findMediaUsage env org repo path mediaUrl' mediaName' mediaCache.
Proof.
  intros Hu Hu' Hkey. unfold findMediaUsage.
  destruct (getMediaIndex env org repo path mediaCache)
    as [[data total t c|e] st]; [|reflexivity].
  destruct (st !! cacheKey org repo path) as [cached|]; [|reflexivity].
  unfold lookupUsage, resolveKey. now rewrite Hu, Hu', Hkey.
Qed.

Lemma findMediaUsage_by_url_witness :
  findMediaUsage sampleEnv "acme" "site" None (Some "A.PNG?width=750")
    (Some "b.png") sampleCache
  = findMediaUsage sampleEnv "acme" "site" None (Some "a.png") None sampleCache.
Proof.
  apply (findMediaUsage_by_url sampleEnv "acme" "site" None
           (Some "A.PNG?width=750") (Some "a.png") (Some "b.png") None
           sampleCache); reflexivity.
Defined.

(** X20. A lookup by name, on an index built from raw records, resolves
    to the canonical key of the first raw record with a location
    identifier whose key contains the lower-cased name, and to no key when
    there is no such record. *)
Theorem resolveKey_by_name
    (raw : list RawRecord) (mediaUrl : option string) (mediaName : string) :
  JS.truthy mediaUrl = false ->
  mediaName <> EmptyString ->
  resolveKey (usageIndex (buildMediaStructures raw)) mediaUrl (Some mediaName)
  = (fun r => getGroupingKey (url r))
      <$> find (fun r => hasUrl r
                         && JS.includes (getGroupingKey (url r))
                              (JS.toLowerCase mediaName)) raw.
Proof.
  intros Hu Hn. unfold resolveKey. rewrite Hu.
  destruct mediaName as [|c n]; [congruence|]. cbn [JS.truthy].
  destruct (buildMediaStructures_fields raw) as (_ & -> & _).
  destruct (build_maps_keys raw) as [_ ->].
  rewrite of_list_firstOccurrences, find_firstOccurrences. apply find_keysOf.
Qed.

Lemma resolveKey_by_name_witness :
  resolveKey (usageIndex (buildMediaStructures sampleRaw)) None (Some "PNG")
  = Some "a.png".
Proof.
  rewrite (resolveKey_by_name sampleRaw None "PNG").
  - reflexivity.
  - reflexivity.
  - discriminate.
Defined.

(** X21. A raw record whose location identifier starts with ['?'] is
    indexed under the empty canonical key, and no usage lookup ever
    answers from that key: looking up the record's own URL in the index
    built from the records gives the not-found object, and whatever URL or
    name is given, the result is the not-found object or the usage
    sequence of a key that is not empty. *)
Theorem empty_key_unreachable
    (env : Env) (org repo : string) (path mediaUrl mediaName : option string)
    (mediaCache mediaCache' : gmap string CacheEntry) (u : Usage)
    (raw : list RawRecord) (r : RawRecord) (q : string) :
  In r raw ->
  url r = Some (String "?"%char q) ->
  findMediaUsage env org repo path mediaUrl mediaName mediaCache
    = (UsageData u, mediaCache') ->
  (exists usages,
     JSMap.get EmptyString (usageIndex (buildMediaStructures raw)) = Some usages
     /\ In (usageDetail r) usages)
  /\ (forall name : option string,
        lookupUsage {| structures := buildMediaStructures raw;
                       fetchedAt := now env |} (url r) name
        = notFound)
  /\ (u = notFound
      \/ exists cached key,
           mediaCache' !! cacheKey org repo path = Some cached
           /\ key <> EmptyString
           /\ JSMap.get key (usageIndex (structures cached))
              = Some (allUsages u)).
Proof.
  intros Hin Hurl Hfind. split.
  - assert (Hr : hasUrl r = true) by (unfold hasUrl; now rewrite Hurl).
    assert (Hk : getGroupingKey (url r) = EmptyString) by now rewrite Hurl.
    pose proof (carries_own_key r Hr) as Hc. rewrite Hk in Hc.
    destruct (find_In_Some (carries EmptyString) raw r Hin Hc) as [r0 F].
    destruct (buildMediaStructures_fields raw) as (_ & -> & _).
    rewrite build_maps_usages, F. eexists. split; [reflexivity|].
    apply in_map. apply filter_In. auto.
  - split; [intros name0; rewrite Hurl; reflexivity|].
    apply findMediaUsage_data in Hfind as (cached & Hentry & ->).
    destruct (lookupUsage_cases cached mediaUrl mediaName)
      as [->|(key & usages & _ & Hne & Hget & ->)]; [now left|].
    right. exists cached, key. auto.
Qed.

Lemma empty_key_unreachable_witness :
  exists usages,
    JSMap.get EmptyString
      (usageIndex (buildMediaStructures [mkRecord (Some "?v=2") (Some "p1") None]))
    = Some usages
    /\ In (usageDetail (mkRecord (Some "?v=2") (Some "p1") None)) usages.
Proof.
  apply (empty_key_unreachable sampleEnv "acme" "site" None (Some "?v=2") None
           sampleCache sampleCache notFound
           [mkRecord (Some "?v=2") (Some "p1") None]
           (mkRecord (Some "?v=2") (Some "p1") None) "v=2").
  - left. reflexivity.
  - reflexivity.
  - reflexivity.
Defined.

(** X22. A refresh does not look at what was cached for the site: its
    result and the cache it leaves are those of [getMediaIndex] on a
    cache from which the entry of the site is absent, so when the fetch
    succeeds the entry of the site is the freshly built one and nothing of
    the old entry remains. *)
Theorem refreshMediaCache_forgets
    (env : Env) (org repo : string) (path : option string)
    (mediaCache : gmap string CacheEntry) (old : CacheEntry) (body : Payload) :
  daAdminRequest env (buildMediaUrl env org repo path) = Resolves body ->
  refreshMediaCache env org repo path
    (<[cacheKey org repo path := old]> mediaCache)
  = refreshMediaCache env org repo path mediaCache
  /\ snd (refreshMediaCache env org repo path
            (<[cacheKey org repo path := old]> mediaCache))
       !! cacheKey org repo path
     = Some {| structures := buildMediaStructures (mediaDataOf body);
               fetchedAt := now env |}.
Proof.
  intros Hres. unfold refreshMediaCache. rewrite delete_insert_eq.
  split; [reflexivity|].
  rewrite (getMediaIndex_miss_resolves env org repo path _ body)
    by (apply lookup_delete_eq || exact Hres).
  apply lookup_insert_eq.
Qed.

Lemma refreshMediaCache_forgets_witness :
  refreshMediaCache sampleEnv "acme" "site" None sampleCache
  = refreshMediaCache sampleEnv "acme" "site" None ∅.
Proof.
  apply (refreshMediaCache_forgets sampleEnv "acme" "site" None ∅
           {| structures := buildMediaStructures sampleRaw;
              fetchedAt := 1690000000000%Z |} (Sheet sampleRaw)).
  reflexivity.
Defined.
